(** * Session store of the chat page (src/app/page.tsx)

    A shallow embedding of the client-side session/message state of the
    [Home] component: the [Message] and [Session] types, the state hooks
    that hold them, the handlers that update them, and the two
    [localStorage] effects that persist them. *)

From Stdlib Require Import String Ascii List Bool Arith Lia ZArith.
From Stdlib Require Import DecimalString DecimalNat Permutation.
Import ListNotations.

Local Open Scope string_scope.
Local Open Scope list_scope.

(** ** Data model (page.tsx lines 11-24) *)

(** [role: "user" | "assistant"] *)
Inductive Role := user | assistant.

Definition Role_eqb (a b : Role) : bool :=
  match a, b with
  | user, user | assistant, assistant => true
  | _, _ => false
  end.

(** Strings are JS strings, modelled as sequences of 8-bit code units.
    [reactions] is a JS object used as a map from emoji to count: an
    association list in property order, keys unique.  Optional
    properties ([?:]) are [option]s, [None] standing for [undefined]. *)
Record Message := mkMessage {
  role : Role;
  content : string;
  timestamp : string;
  isPinned : option bool;
  reactions : option (list (string * nat));
  lastEdited : option string
}.

Record Session := mkSession {
  id : string;
  name : string;
  messages : list Message
}.

(** The state hooks of [Home] that the session logic reads and writes
    (lines 27-30).  Purely presentational hooks (theme, navbar, search
    query, edit buffer, emoji picker position, lazy-load window) are left
    out. *)
Record Store := mkStore {
  topic : string;
  sessions : list Session;
  currentSessionId : option string;
  isLoading : bool
}.

Definition initStore : Store :=
  {| topic := ""; sessions := []; currentSessionId := None; isLoading := false |}.

Definition set_sessions (st : Store) (ss : list Session) : Store :=
  {| topic := topic st; sessions := ss;
     currentSessionId := currentSessionId st; isLoading := isLoading st |}.

Definition set_current (st : Store) (c : option string) : Store :=
  {| topic := topic st; sessions := sessions st;
     currentSessionId := c; isLoading := isLoading st |}.

Definition set_topic (st : Store) (t : string) : Store :=
  {| topic := t; sessions := sessions st;
     currentSessionId := currentSessionId st; isLoading := isLoading st |}.

Definition set_loading (st : Store) (b : bool) : Store :=
  {| topic := topic st; sessions := sessions st;
     currentSessionId := currentSessionId st; isLoading := b |}.

(** ** JavaScript helpers *)

(** Truthiness of a [string | null]: [null] and [""] are falsy. *)
Definition truthy_str (c : option string) : bool :=
  match c with
  | Some s => negb (String.eqb s "")
  | None => false
  end.

(** [s.id === currentSessionId] with [currentSessionId : string | null]. *)
Definition id_is (sid : string) (c : option string) : bool :=
  match c with
  | Some x => String.eqb sid x
  | None => false
  end.

(** Truthiness of [msg.isPinned] ([undefined] is falsy). *)
Definition pinned (m : Message) : bool :=
  match isPinned m with
  | Some true => true
  | _ => false
  end.

(** [Date.now().toString()]: the decimal digits of a millisecond count. *)
Definition number_to_string (n : nat) : string :=
  NilZero.string_of_uint (Nat.to_uint n).

(** [arr.map((x, idx) => ...)] *)
Fixpoint mapi_from {A B} (f : nat -> A -> B) (k : nat) (l : list A) : list B :=
  match l with
  | [] => []
  | x :: l' => f k x :: mapi_from f (S k) l'
  end.

Definition mapi {A B} (f : nat -> A -> B) (l : list A) : list B := mapi_from f 0 l.

(** [arr.map((x, idx) => idx === i ? g(x) : x)] *)
Definition update_at {A} (i : nat) (g : A -> A) (l : list A) : list A :=
  mapi (fun idx x => if Nat.eqb idx i then g x else x) l.

(** [prev.map((s) => s.id === currentSessionId ? { ...s, messages: f(s.messages) } : s)] *)
Definition map_current (cur : option string) (f : list Message -> list Message)
    (ss : list Session) : list Session :=
  map (fun s => if id_is (id s) cur
                then {| id := id s; name := name s; messages := f (messages s) |}
                else s) ss.

(** [sessions.find((s) => s.id === currentSessionId) || null] (line 56). *)
Definition getCurrentSession (st : Store) : option Session :=
  find (fun s => id_is (id s) (currentSessionId st)) (sessions st).

(** Reading [obj[key]] of a reaction map (own properties only: the keys
    are emoji supplied by the emoji picker). *)
Fixpoint obj_get (k : string) (o : list (string * nat)) : option nat :=
  match o with
  | [] => None
  | (k', v) :: o' => if String.eqb k k' then Some v else obj_get k o'
  end.

(** [{ ...o, [k]: v }]: an existing property keeps its position and takes
    the new value, a new property is added last. *)
Fixpoint obj_set {V} (k : string) (v : V) (o : list (string * V)) : list (string * V) :=
  match o with
  | [] => [(k, v)]
  | (k', v') :: o' => if String.eqb k k' then (k, v) :: o' else (k', v') :: obj_set k v o'
  end.

(** ** Sorting by pin state (lines 161 and 516)

    [arr.sort((a, b) => (b.isPinned ? 1 : 0) - (a.isPinned ? 1 : 0))].
    [Array.prototype.sort] is stable (ES2019); it is modelled as a stable
    insertion sort with the source's comparator. *)
Definition pin_cmp (a b : Message) : Z :=
  ((if pinned b then 1 else 0) - (if pinned a then 1 else 0))%Z.

Fixpoint insert_by (cmp : Message -> Message -> Z) (x : Message) (l : list Message)
    : list Message :=
  match l with
  | [] => [x]
  | y :: l' => if Z.ltb 0 (cmp x y) then y :: insert_by cmp x l' else x :: y :: l'
  end.

Fixpoint sort_by (cmp : Message -> Message -> Z) (l : list Message) : list Message :=
  match l with
  | [] => []
  | x :: l' => insert_by cmp x (sort_by cmp l')
  end.

Definition pin_sort (l : list Message) : list Message := sort_by pin_cmp l.

(** ** Handlers *)

(** The user message built by [handleSubmit] (line 71). *)
Definition userMessage (t stamp : string) : Message :=
  {| role := user; content := t; timestamp := stamp;
     isPinned := Some false; reactions := Some []; lastEdited := None |}.

(** [topic.slice(0, 20) || "New Chat"] (line 76). *)
Definition session_name (t : string) : string :=
  let sl := substring 0 20 t in
  if String.eqb sl "" then "New Chat" else sl.

(** What the [async] closure of [handleSubmit] holds across its [await]:
    the [topic] it posts and the [currentSessionId] of the render it was
    created in. *)
Record Pending := mkPending {
  p_topic : string;
  p_session : option string
}.

(** Synchronous part of [handleSubmit] (lines 67-91), up to the
    [axios.post] call.  [now] is [Date.now()], [stamp] is
    [new Date().toLocaleString()].  The second component is the call
    that is dispatched, [None] when the handler returns early. *)
Definition handleSubmit_start (st : Store) (now : nat) (stamp : string)
    : Store * option Pending :=
  if String.eqb (topic st) "" then (st, None) else
  let um := userMessage (topic st) stamp in
  let st1 :=
    if negb (truthy_str (currentSessionId st)) then
      let newSession := {| id := number_to_string now;
                           name := session_name (topic st);
                           messages := [um] |} in
      set_current (set_sessions st (sessions st ++ [newSession])) (Some (id newSession))
    else
      set_sessions st (map_current (currentSessionId st) (fun ms => ms ++ [um]) (sessions st))
  in
  (set_loading (set_topic st1 "") true,
   Some {| p_topic := topic st; p_session := currentSessionId st |}).

(** Settlement of [axios.post("/api/chat", { topic })]: [res.data] or a
    rejection. *)
Inductive Outcome := Resolved (data : string) | Failed.

Definition apology : string := "Sorry, something went wrong. Try again!".

(** Lines 93-128: the [try]/[catch] appends an assistant message to the
    sessions whose id is the captured [currentSessionId], and [finally]
    clears the loading flag.  [stamp] is [new Date().toLocaleString()]. *)
Definition handleSubmit_settle (p : Pending) (o : Outcome) (stamp : string) (st : Store)
    : Store :=
  let c := match o with Resolved d => d | Failed => apology end in
  let am := {| role := assistant; content := c; timestamp := stamp;
               isPinned := Some false; reactions := Some []; lastEdited := None |} in
  set_loading
    (set_sessions st (map_current (p_session p) (fun ms => ms ++ [am]) (sessions st)))
    false.

(** Lines 138-141. *)
Definition handleDeleteSession (st : Store) (sid : string) : Store :=
  let st1 := set_sessions st (filter (fun s => negb (String.eqb (id s) sid)) (sessions st)) in
  if id_is sid (currentSessionId st) then set_current st1 None else st1.

(** Lines 143-147. *)
Definition handleSessionClick (st : Store) (sid : string) : Store :=
  set_topic (set_current st (Some sid)) "".

(** [{ ...msg, isPinned: !msg.isPinned }] *)
Definition flip_pin (m : Message) : Message :=
  {| role := role m; content := content m; timestamp := timestamp m;
     isPinned := Some (negb (pinned m)); reactions := reactions m;
     lastEdited := lastEdited m |}.

(** Lines 152-166. *)
Definition togglePinMessage (st : Store) (i : nat) : Store :=
  if negb (truthy_str (currentSessionId st)) then st else
  set_sessions st
    (map_current (currentSessionId st) (fun ms => pin_sort (update_at i flip_pin ms))
       (sessions st)).

(** [{ ...msg, reactions: { ...(msg.reactions || {}),
       [emoji]: (msg.reactions?.[emoji] || 0) + 1 } }] *)
Definition react (e : string) (m : Message) : Message :=
  let r := match reactions m with Some r => r | None => [] end in
  let n := match obj_get e r with Some v => v | None => 0 end in
  {| role := role m; content := content m; timestamp := timestamp m;
     isPinned := isPinned m; reactions := Some (obj_set e (n + 1) r);
     lastEdited := lastEdited m |}.

(** Lines 197-220. *)
Definition addReaction (st : Store) (i : nat) (e : string) : Store :=
  if negb (truthy_str (currentSessionId st)) then st else
  set_sessions st (map_current (currentSessionId st) (update_at i (react e)) (sessions st)).

(** [{ ...msg, content, lastEdited: now.toLocaleString() }] *)
Definition edit_msg (c nowStr : string) (m : Message) : Message :=
  {| role := role m; content := c; timestamp := timestamp m;
     isPinned := isPinned m; reactions := reactions m;
     lastEdited := Some nowStr |}.

(** Outcome of [handleEditMessage]: a (possibly unchanged) store, the
    blocking [alert] with the store unchanged, or a [TypeError] thrown by
    a dereference of [null] or [undefined]. *)
Inductive EditResult :=
| EditDone (st : Store)
| EditAlert (msg : string) (st : Store)
| EditFault.

Section Edit.

(** [new Date(s).getTime()] for the locale-formatted timestamps, in
    milliseconds; [None] is an Invalid Date, whose time is [NaN]. *)
Variable parse_date : string -> option Z.

(** Lines 168-195.  [now] is [new Date().getTime()], [nowStr] is
    [now.toLocaleString()].  [timeDiff > 5] with
    [timeDiff = (now - t) / 60000] holds exactly when [now - t > 300000]
    for integer millisecond counts; any comparison with [NaN] is false. *)
Definition handleEditMessage (st : Store) (i : nat) (c : string) (now : Z) (nowStr : string)
    : EditResult :=
  if negb (truthy_str (currentSessionId st)) then EditDone st else
  match getCurrentSession st with
  | None => EditFault
  | Some s =>
      match nth_error (messages s) i with
      | None => EditFault
      | Some m =>
          let tooOld :=
            match parse_date (timestamp m) with
            | Some t => Z.ltb 300000 (now - t)
            | None => false
            end in
          if tooOld then EditAlert "Cannot edit messages older than 5 minutes." st
          else EditDone (set_sessions st
                 (map_current (currentSessionId st) (update_at i (edit_msg c nowStr))
                    (sessions st)))
      end
  end.

End Edit.

(** ** Transitions of the page

    Every state change the page can make, labelled by the handler that
    makes it.  A settlement may carry any captured closure state, and a
    session click any id; this over-approximates what the page can do. *)
Inductive Label :=
| LType | LSubmit | LSettle | LDelete | LSelect | LPin | LEdit | LReact.

Inductive step : Label -> Store -> Store -> Prop :=
| step_type st t :
    step LType st (set_topic st t)
| step_submit st now stamp st' p :
    handleSubmit_start st now stamp = (st', p) -> step LSubmit st st'
| step_settle st p o stamp :
    step LSettle st (handleSubmit_settle p o stamp st)
| step_delete st sid :
    step LDelete st (handleDeleteSession st sid)
| step_select st sid :
    step LSelect st (handleSessionClick st sid)
| step_pin st i :
    step LPin st (togglePinMessage st i)
| step_edit parse_date st i c now nowStr st' :
    handleEditMessage parse_date st i c now nowStr = EditDone st' -> step LEdit st st'
| step_react st i e :
    step LReact st (addReaction st i e).

(** States reachable from the initial render, across reloads: a reload
    starts from [initStore] and hydrates the sessions saved by an earlier
    run. *)
Inductive reachable : Store -> Prop :=
| reach_init : reachable initStore
| reach_step l st st' : reachable st -> step l st st' -> reachable st'
| reach_reload st : reachable st -> reachable (set_sessions initStore (sessions st)).

(** The message at position [i] of the current session. *)
Definition msg_at (st : Store) (i : nat) : option Message :=
  match getCurrentSession st with
  | Some s => nth_error (messages s) i
  | None => None
  end.

(** The counter of [emoji] in a message's reaction map. *)
Definition count (m : Message) (e : string) : option nat :=
  match reactions m with
  | Some r => obj_get e r
  | None => None
  end.

(** No unpinned message comes before a pinned one. *)
Fixpoint pin_sortedb (l : list Message) : bool :=
  match l with
  | [] => true
  | x :: l' =>
      (if pinned x then true else forallb (fun y => negb (pinned y)) l') && pin_sortedb l'
  end.

(** ** Persistence (lines 41-54)

    [localStorage.setItem("chatSessions", JSON.stringify(sessions))] and
    [JSON.parse(localStorage.getItem("chatSessions"))].  JSON values are
    modelled by [json]; numbers are the non-negative integers the store
    holds (reaction counts).  Objects are association lists in property
    order. *)
#[warnings="-register-all"]
Inductive json :=
| JNull
| JBool (b : bool)
| JNum (n : nat)
| JStr (s : string)
| JArr (l : list json)
| JObj (o : list (string * json)).

Definition dq : ascii := Ascii.ascii_of_nat 34.
Definition bslash : ascii := Ascii.ascii_of_nat 92.

Definition str1 (c : ascii) : string := String c EmptyString.

(** Lower-case hexadecimal digit of [n < 16]. *)
Definition hex_digit (n : nat) : ascii :=
  Ascii.ascii_of_nat (if Nat.ltb n 10 then 48 + n else 87 + n).

(** [QuoteJSONString] for one code unit: the two-character escapes, a
    [\u00XX] escape for the other control characters, the unit itself
    otherwise. *)
Definition escape_char (c : ascii) : string :=
  let n := Ascii.nat_of_ascii c in
  if Nat.eqb n 34 then String bslash (str1 dq)
  else if Nat.eqb n 92 then String bslash (str1 bslash)
  else if Nat.eqb n 8 then String bslash (str1 "b")
  else if Nat.eqb n 12 then String bslash (str1 "f")
  else if Nat.eqb n 10 then String bslash (str1 "n")
  else if Nat.eqb n 13 then String bslash (str1 "r")
  else if Nat.eqb n 9 then String bslash (str1 "t")
  else if Nat.ltb n 32 then
    String bslash (String "u" (String "0" (String "0"
      (String (hex_digit (n / 16)) (str1 (hex_digit (n mod 16)))))))
  else str1 c.

Fixpoint escape_string (s : string) : string :=
  match s with
  | EmptyString => EmptyString
  | String c s' => (escape_char c ++ escape_string s')%string
  end.

Definition quote (s : string) : string := String dq (escape_string s ++ str1 dq)%string.

(** The elements of an array after its [[], comma-separated, with the
    closing bracket. *)
Fixpoint print_elems (pr : json -> string) (l : list json) : string :=
  match l with
  | [] => "]"
  | [x] => pr x ++ "]"
  | x :: l' => pr x ++ String ","%char (print_elems pr l')
  end%string.

(** The properties of an object after its [{], with the closing brace. *)
Fixpoint print_members (pr : json -> string) (o : list (string * json)) : string :=
  match o with
  | [] => "}"
  | [(k, v)] => quote k ++ String ":"%char (pr v ++ "}")
  | (k, v) :: o' => quote k ++ String ":"%char (pr v ++ String ","%char (print_members pr o'))
  end%string.

(** [JSON.stringify] (no indentation). *)
Fixpoint print_json (j : json) : string :=
  match j with
  | JNull => "null"
  | JBool true => "true"
  | JBool false => "false"
  | JNum n => number_to_string n
  | JStr s => quote s
  | JArr l => String "["%char (print_elems print_json l)
  | JObj o => String "{"%char (print_members print_json o)
  end.

Definition is_ws (c : ascii) : bool :=
  let n := Ascii.nat_of_ascii c in
  Nat.eqb n 32 || Nat.eqb n 9 || Nat.eqb n 10 || Nat.eqb n 13.

Fixpoint skip_ws (s : string) : string :=
  match s with
  | String c s' => if is_ws c then skip_ws s' else s
  | EmptyString => EmptyString
  end.

Definition is_digit (c : ascii) : bool :=
  let n := Ascii.nat_of_ascii c in Nat.leb 48 n && Nat.ltb n 58.

Definition hex_val (c : ascii) : option nat :=
  let n := Ascii.nat_of_ascii c in
  if Nat.leb 48 n && Nat.ltb n 58 then Some (n - 48)
  else if Nat.leb 97 n && Nat.ltb n 103 then Some (n - 87)
  else if Nat.leb 65 n && Nat.ltb n 71 then Some (n - 55)
  else None.

(** The character after a backslash.  A [\uXXXX] escape denotes one
    code unit; only units below 256 exist in this model. *)
Definition unescape (e : ascii) (r : string) : option (ascii * string) :=
  let n := Ascii.nat_of_ascii e in
  if Nat.eqb n 34 then Some (dq, r)
  else if Nat.eqb n 92 then Some (bslash, r)
  else if Nat.eqb n 47 then Some ("/"%char, r)
  else if Nat.eqb n 98 then Some (Ascii.ascii_of_nat 8, r)
  else if Nat.eqb n 102 then Some (Ascii.ascii_of_nat 12, r)
  else if Nat.eqb n 110 then Some (Ascii.ascii_of_nat 10, r)
  else if Nat.eqb n 114 then Some (Ascii.ascii_of_nat 13, r)
  else if Nat.eqb n 116 then Some (Ascii.ascii_of_nat 9, r)
  else if Nat.eqb n 117 then
    match r with
    | String h1 (String h2 (String h3 (String h4 r'))) =>
        match hex_val h1, hex_val h2, hex_val h3, hex_val h4 with
        | Some a, Some b, Some c, Some d =>
            let u := ((a * 16 + b) * 16 + c) * 16 + d in
            if Nat.ltb u 256 then Some (Ascii.ascii_of_nat u, r') else None
        | _, _, _, _ => None
        end
    | _ => None
    end
  else None.

(** The body of a string literal, after its opening quote. *)
Fixpoint parse_chars (fuel : nat) (s : string) : option (string * string) :=
  match fuel with
  | 0 => None
  | S f =>
      match s with
      | EmptyString => None
      | String c r =>
          if Ascii.eqb c dq then Some (EmptyString, r)
          else
            match (if Ascii.eqb c bslash
                   then match r with String e r' => unescape e r' | EmptyString => None end
                   else if Nat.ltb (Ascii.nat_of_ascii c) 32 then None
                   else Some (c, r)) with
            | Some (ch, r') =>
                match parse_chars f r' with
                | Some (t, r'') => Some (String ch t, r'')
                | None => None
                end
            | None => None
            end
      end
  end.

Fixpoint take_digits (s : string) : string * string :=
  match s with
  | String c r =>
      if is_digit c then let '(d, r') := take_digits r in (String c d, r') else (EmptyString, s)
  | EmptyString => (EmptyString, EmptyString)
  end.

(** Prefix test for the literals [true], [false], [null]. *)
Fixpoint strip_prefix (p s : string) : option string :=
  match p, s with
  | EmptyString, _ => Some s
  | String a p', String b s' => if Ascii.eqb a b then strip_prefix p' s' else None
  | _, _ => None
  end.

Definition parse_number (s : string) : option (json * string) :=
  let '(d, r) := take_digits s in
  match d with
  | EmptyString => None
  | _ => match NilEmpty.uint_of_string d with
         | Some u => Some (JNum (Nat.of_uint u), r)
         | None => None
         end
  end.

(** [JSON.parse], by recursive descent; [fuel] bounds the nesting.  The
    properties of an object are added in order, a repeated key keeping
    its first position and taking the last value.  Numbers are read as
    runs of decimal digits only (the values written are non-negative
    integers). *)
Fixpoint parse_value (fuel : nat) (s : string) {struct fuel} : option (json * string) :=
  match fuel with
  | 0 => None
  | S f =>
      match skip_ws s with
      | EmptyString => None
      | String c r =>
          if Ascii.eqb c "["%char then parse_arr f r
          else if Ascii.eqb c "{"%char then parse_obj f r
          else if Ascii.eqb c dq then
            match parse_chars (String.length r) r with
            | Some (t, r') => Some (JStr t, r')
            | None => None
            end
          else if is_digit c then parse_number (String c r)
          else match strip_prefix "true" (String c r) with
               | Some r' => Some (JBool true, r')
               | None =>
                 match strip_prefix "false" (String c r) with
                 | Some r' => Some (JBool false, r')
                 | None =>
                   match strip_prefix "null" (String c r) with
                   | Some r' => Some (JNull, r')
                   | None => None
                   end
                 end
               end
      end
  end
with parse_arr (fuel : nat) (s : string) {struct fuel} : option (json * string) :=
  match fuel with
  | 0 => None
  | S f =>
      match skip_ws s with
      | String "]" r => Some (JArr [], r)
      | _ => match parse_items f s with
             | Some (l, r) => Some (JArr l, r)
             | None => None
             end
      end
  end
with parse_items (fuel : nat) (s : string) {struct fuel} : option (list json * string) :=
  match fuel with
  | 0 => None
  | S f =>
      match parse_value f s with
      | Some (v, r) =>
          match skip_ws r with
          | String "," r' =>
              match parse_items f r' with
              | Some (vs, r'') => Some (v :: vs, r'')
              | None => None
              end
          | String "]" r' => Some ([v], r')
          | _ => None
          end
      | None => None
      end
  end
with parse_obj (fuel : nat) (s : string) {struct fuel} : option (json * string) :=
  match fuel with
  | 0 => None
  | S f =>
      match skip_ws s with
      | String "}" r => Some (JObj [], r)
      | _ => match parse_members f s with
             | Some (kvs, r) =>
                 Some (JObj (fold_left (fun o kv => obj_set (fst kv) (snd kv) o) kvs []), r)
             | None => None
             end
      end
  end
with parse_members (fuel : nat) (s : string) {struct fuel}
    : option (list (string * json) * string) :=
  match fuel with
  | 0 => None
  | S f =>
      match skip_ws s with
      | String c r =>
          if Ascii.eqb c dq then
            match parse_chars (String.length r) r with
            | Some (k, r1) =>
                match skip_ws r1 with
                | String ":" r2 =>
                    match parse_value f r2 with
                    | Some (v, r3) =>
                        match skip_ws r3 with
                        | String "," r4 =>
                            match parse_members f r4 with
                            | Some (kvs, r5) => Some ((k, v) :: kvs, r5)
                            | None => None
                            end
                        | String "}" r4 => Some ([(k, v)], r4)
                        | _ => None
                        end
                    | None => None
                    end
                | _ => None
                end
            | None => None
            end
          else None
      | EmptyString => None
      end
  end.

(** A whole document: one value, then only whitespace.  The nesting
    bound [2 * length + 1] is never reached by a well-formed document. *)
Definition parse_json (s : string) : option json :=
  match parse_value (2 * String.length s + 1) s with
  | Some (j, r) => match skip_ws r with EmptyString => Some j | _ => None end
  | None => None
  end.

(** Property [k] of a parsed object. *)
Fixpoint prop (k : string) (o : list (string * json)) : option json :=
  match o with
  | [] => None
  | (k', v) :: o' => if String.eqb k k' then Some v else prop k o'
  end.

Definition opt_prop (k : string) (v : option json) : list (string * json) :=
  match v with
  | Some j => [(k, j)]
  | None => []
  end.

Definition role_str (r : Role) : string :=
  match r with user => "user" | assistant => "assistant" end.

(** A message as [JSON.stringify] sees it: [undefined] properties are
    left out.  The record fixes one property order; the actual order only
    depends on the history of spreads and is not observed by the round
    trip. *)
Definition message_to_json (m : Message) : json :=
  JObj ([("role", JStr (role_str (role m)));
         ("content", JStr (content m));
         ("timestamp", JStr (timestamp m))] ++
        opt_prop "isPinned" (option_map JBool (isPinned m)) ++
        opt_prop "reactions"
          (option_map (fun r => JObj (map (fun '(k, n) => (k, JNum n)) r)) (reactions m)) ++
        opt_prop "lastEdited" (option_map JStr (lastEdited m))).

Definition session_to_json (s : Session) : json :=
  JObj [("id", JStr (id s)); ("name", JStr (name s));
        ("messages", JArr (map message_to_json (messages s)))].

Definition stringify_sessions (ss : list Session) : string :=
  print_json (JArr (map session_to_json ss)).

(** Reading parsed values back at the types of page.tsx.  [JSON.parse]
    does not check types; a value that does not fit [Session[]] is
    reported as [None] here. *)
Fixpoint traverse {A B} (f : A -> option B) (l : list A) : option (list B) :=
  match l with
  | [] => Some []
  | x :: l' =>
      match f x, traverse f l' with
      | Some y, Some ys => Some (y :: ys)
      | _, _ => None
      end
  end.

Definition str_of (j : option json) : option string :=
  match j with Some (JStr s) => Some s | _ => None end.

Definition optional {A} (f : json -> option A) (j : option json) : option (option A) :=
  match j with
  | None => Some None
  | Some v => option_map Some (f v)
  end.

Definition role_of (j : option json) : option Role :=
  match str_of j with
  | Some s => if String.eqb s "user" then Some user
              else if String.eqb s "assistant" then Some assistant else None
  | None => None
  end.

Definition reactions_of (j : json) : option (list (string * nat)) :=
  match j with
  | JObj o => traverse (fun '(k, v) => match v with JNum n => Some (k, n) | _ => None end) o
  | _ => None
  end.

Definition message_of_json (j : json) : option Message :=
  match j with
  | JObj o =>
      match role_of (prop "role" o), str_of (prop "content" o), str_of (prop "timestamp" o),
            optional (fun v => match v with JBool b => Some b | _ => None end)
              (prop "isPinned" o),
            optional reactions_of (prop "reactions" o),
            optional (fun v => match v with JStr s => Some s | _ => None end)
              (prop "lastEdited" o) with
      | Some r, Some c, Some ts, Some p, Some rs, Some le =>
          Some {| role := r; content := c; timestamp := ts; isPinned := p;
                  reactions := rs; lastEdited := le |}
      | _, _, _, _, _, _ => None
      end
  | _ => None
  end.

Definition session_of_json (j : json) : option Session :=
  match j with
  | JObj o =>
      match str_of (prop "id" o), str_of (prop "name" o), prop "messages" o with
      | Some i, Some n, Some (JArr ms) =>
          match traverse message_of_json ms with
          | Some msgs => Some {| id := i; name := n; messages := msgs |}
          | None => None
          end
      | _, _, _ => None
      end
  | _ => None
  end.

Definition parse_sessions (s : string) : option (list Session) :=
  match parse_json s with
  | Some (JArr l) => traverse session_of_json l
  | _ => None
  end.

(** Second effect (lines 50-54): the snapshot of [sessions] is written
    only when the collection is non-empty. *)
Definition save_sessions (ss : list Session) (stored : option string) : option string :=
  if Nat.ltb 0 (length ss) then Some (stringify_sessions ss) else stored.

(** What the first effect (lines 41-43) does with the stored value. *)
Inductive Hydration :=
| KeepEmpty                       (* nothing stored, or [""]: [sessions] stays [[]] *)
| Hydrate (ss : list Session)     (* [setSessions(JSON.parse(saved))] *)
| ParseError.                     (* [JSON.parse] throws, or a value of another type *)

Definition load_sessions (stored : option string) : Hydration :=
  match stored with
  | None => KeepEmpty
  | Some s =>
      if String.eqb s "" then KeepEmpty
      else match parse_sessions s with
           | Some ss => Hydrate ss
           | None => ParseError
           end
  end.

(** Reaction maps are JS objects: their keys are distinct. *)
Definition reactions_wf (ss : list Session) : Prop :=
  Forall (fun s => Forall (fun m => match reactions m with
                                    | Some r => NoDup (map fst r)
                                    | None => True
                                    end) (messages s)) ss.

(** ** Session search (lines 58-65) *)

(** [String.prototype.toLowerCase] on one UTF-16 code unit below 256:
    A-Z and the Latin-1 capitals (U+00C0-U+00DE but U+00D7) move up by 32. *)
Definition lower_char (c : ascii) : ascii :=
  let n := nat_of_ascii c in
  if (Nat.leb 65 n && Nat.leb n 90) ||
     (Nat.leb 192 n && Nat.leb n 222 && negb (Nat.eqb n 215))
  then ascii_of_nat (n + 32) else c.

Fixpoint toLowerCase (s : string) : string :=
  match s with
  | EmptyString => EmptyString
  | String c s' => String (lower_char c) (toLowerCase s')
  end.

(** [s.includes(q)]: [q] occurs in [s] at some position. *)
Fixpoint includes (s q : string) : bool :=
  if String.prefix q s then true
  else match s with
       | EmptyString => false
       | String _ s' => includes s' q
       end.

(** The predicate given to [sessions.filter]. *)
Definition session_matches (searchQuery : string) (session : Session) : bool :=
  includes (toLowerCase (name session)) (toLowerCase searchQuery) ||
  existsb (fun msg => includes (toLowerCase (content msg)) (toLowerCase searchQuery))
    (messages session).

Definition filteredSessions (sessions : list Session) (searchQuery : string) : list Session :=
  filter (session_matches searchQuery) sessions.

(** ** Preferences in [localStorage] (lines 44-47 and 51-53) *)

Definition Storage := string -> option string.

Definition setItem (k v : string) (ls : Storage) : Storage :=
  fun k' => if String.eqb k' k then Some v else ls k'.

(** The second effect: the snapshot guard of [save_sessions], then the
    theme and [isMonochrome.toString()]. *)
Definition persist (ss : list Session) (isDarkTheme isMonochrome : bool) (ls : Storage)
    : Storage :=
  let ls1 := if Nat.ltb 0 (length ss) then setItem "chatSessions" (stringify_sessions ss) ls
             else ls in
  let ls2 := setItem "theme" (if isDarkTheme then "dark" else "light") ls1 in
  setItem "monochrome" (if isMonochrome then "true" else "false") ls2.

(** [if (saved) set(saved === expected)], starting from the [useState]
    value [init]. *)
Definition load_pref (saved : option string) (expected : string) (init : bool) : bool :=
  match saved with
  | Some s => if String.eqb s "" then init else String.eqb s expected
  | None => init
  end.

(** [isDarkTheme] and [isMonochrome] after the first effect. *)
Definition load_prefs (ls : Storage) : bool * bool :=
  (load_pref (ls "theme") "dark" true, load_pref (ls "monochrome") "true" false).

(** ** Lazy loading (lines 222-224 and 743-762) *)

(** [Math.min(prev + 10, getCurrentSession()?.messages.length || 10)] *)
Definition loadMoreMessages (st : Store) (prev : nat) : nat :=
  Nat.min (prev + 10)
    (match getCurrentSession st with
     | Some s => match length (messages s) with 0 => 10 | n => n end
     | None => 10
     end).

(** The "Load More" button is rendered. *)
Definition showLoadMore (st : Store) (visibleMessages : nat) : bool :=
  match getCurrentSession st with
  | Some s => Nat.ltb visibleMessages (length (messages s))
  | None => false
  end.

(** ** Rendered messages (lines 512-518) *)

(** [currentSession.messages.sort(...).slice(0, visibleMessages)]: the
    sort is the comparator of [togglePinMessage], applied in place to the
    array held in the state. *)
Definition rendered_messages (st : Store) (visibleMessages : nat) : list Message :=
  match getCurrentSession st with
  | Some s => firstn visibleMessages (pin_sort (messages s))
  | None => []
  end.

(** ** The chat route (src/unnamed/part_000) *)

Definition nl : string := str1 (ascii_of_nat 10).

(** [String(v)] of a parsed JSON value, as a template literal uses it;
    array elements that are [null] print as nothing. *)
Fixpoint json_to_string (j : json) : string :=
  match j with
  | JNull => "null"
  | JBool b => if b then "true" else "false"
  | JNum n => number_to_string n
  | JStr s => s
  | JArr l =>
      (fix go (l : list json) : string :=
         match l with
         | [] => ""
         | [x] => match x with JNull => "" | _ => json_to_string x end
         | x :: l' =>
             (match x with JNull => "" | _ => json_to_string x end ++
              String ","%char (go l'))%string
         end) l
  | JObj _ => "[object Object]"
  end.

(** [`${v}`] with [undefined] for a missing property. *)
Definition template_value (v : option json) : string :=
  match v with Some j => json_to_string j | None => "undefined" end.

(** The [TypeError] Node raises for a property read on [null] or
    [undefined]. *)
Definition type_error (what k : string) : string :=
  "Cannot read properties of " ++ what ++ " (reading '" ++ k ++ "')".

(** [v.k] for a value [v] that may be [undefined] ([None]); only objects
    have the properties read here. *)
Definition read_prop (v : option json) (k : string) : string + option json :=
  match v with
  | None => inl (type_error "undefined" k)
  | Some JNull => inl (type_error "null" k)
  | Some (JObj o) => inr (prop k o)
  | Some _ => inr None
  end.

Definition prompt (topic : string) : string :=
  "Tell me the most relevant content about " ++ topic ++ " in Markdown format".

Definition sources (topic : string) : string :=
  nl ++ nl ++ "**Sources**:" ++ nl ++
  "- [Example Source 1](https://example.com/" ++ topic ++ "-1)" ++ nl ++
  "- [Example Source 2](https://example.com/" ++ topic ++ "-2)".

(** What [axios.post] to the upstream chat API does: [res.data], or an
    error with its [message] and [response?.status]. *)
Inductive Upstream :=
| UpOk (data : json)
| UpErr (message : string) (status : option nat).

Record Response := mkResponse { status : nat; body : string }.

(** A [Response], or an exception leaving [POST] (both throws happen before
    the [try]). *)
Inductive RouteResult :=
| Responded (r : Response)
| Rejected (error : string).

Definition error_response (message : string) (st : nat) : Response :=
  mkResponse st (print_json (JObj [("error", JStr message)])).

(** [POST]: [req.json()] is [JSON.parse] of the request body; the
    upstream answer is given as a function of the prompt text. *)
Definition POST (req_body : string) (upstream : string -> Upstream) : RouteResult :=
  match parse_json req_body with
  | None => Rejected "SyntaxError"
  | Some v =>
      match read_prop (Some v) "topic" with
      | inl e => Rejected e
      | inr topic_v =>
          let topic := template_value topic_v in
          match upstream (prompt topic) with
          | UpErr message st =>
              Responded (error_response message (match st with Some (S k) => S k | _ => 500 end))
          | UpOk data =>
              match read_prop (Some data) "openai" with
              | inl e => Responded (error_response e 500)
              | inr openai =>
                  match read_prop openai "generated_text" with
                  | inl e => Responded (error_response e 500)
                  | inr g =>
                      Responded (mkResponse 200
                        (print_json (JStr (template_value g ++ sources topic))))
                  end
              end
          end
      end
  end.

(** The body [axios.post("/api/chat", { topic })] sends. *)
Definition chat_request (topic : string) : string :=
  print_json (JObj [("topic", JStr topic)]).

(** ** Values the properties are stated on *)

(** The submission of "space exploration" with no session selected, the
    remote call answering "Mars has two moons.". *)
Definition space_start : Store * option Pending :=
  handleSubmit_start (set_topic initStore "space exploration") 1700 "10/17/2026, 9:00:00 AM".

(** Two unpinned messages in the current session "1". *)
Definition two_msg_store : Store :=
  {| topic := "";
     sessions := [{| id := "1"; name := "a";
                     messages := [userMessage "a" "t"; userMessage "b" "t"] |}];
     currentSessionId := Some "1"%string; isLoading := false |}.

Definition store_pin_sorted (st : Store) : Prop :=
  Forall (fun s => pin_sortedb (messages s) = true) (sessions st).

(** The store after a first submission of "hi". *)
Definition hi_store : Store := fst (handleSubmit_start (set_topic initStore "hi") 1 "t").

(** Current session "1" holding a user message and the assistant's
    reply, both stamped at time 0. *)
Definition reply_store : Store :=
  {| topic := "";
     sessions := [{| id := "1"; name := "hi";
                     messages := [userMessage "hi" "t0";
                                  {| role := assistant; content := "reply"; timestamp := "t0";
                                     isPinned := Some false; reactions := Some [];
                                     lastEdited := None |}] |}];
     currentSessionId := Some "1"%string; isLoading := false |}.

(** The sessions of [reply_store] after two "+1" reactions on the reply. *)
Definition reacted_sessions : list Session :=
  sessions (addReaction (addReaction reply_store 1 "+1") 1 "+1").

(** Fuel needed to read a value back. *)
Fixpoint json_size (j : json) : nat :=
  match j with
  | JArr l => 2 + list_sum (map (fun x => S (json_size x)) l)
  | JObj o => 2 + list_sum (map (fun kv => S (json_size (snd kv))) o)
  | _ => 1
  end.

(** Every object of the value has distinct keys. *)
Fixpoint wf_json (j : json) : Prop :=
  match j with
  | JArr l => (fix go (l : list json) : Prop :=
                 match l with [] => True | x :: l' => wf_json x /\ go l' end) l
  | JObj o => NoDup (map fst o) /\
              (fix go (o : list (string * json)) : Prop :=
                 match o with [] => True | (_, v) :: o' => wf_json v /\ go o' end) o
  | _ => True
  end.

Section JsonInd.
Variable P : json -> Prop.
Hypothesis HNull : P JNull.
Hypothesis HBool : forall b, P (JBool b).
Hypothesis HNum : forall n, P (JNum n).
Hypothesis HStr : forall s, P (JStr s).
Hypothesis HArr : forall l, Forall P l -> P (JArr l).
Hypothesis HObj : forall o, Forall (fun kv => P (snd kv)) o -> P (JObj o).

Fixpoint json_rect' (j : json) : P j :=
  match j with
  | JNull => HNull
  | JBool b => HBool b
  | JNum n => HNum n
  | JStr s => HStr s
  | JArr l => HArr l ((fix go (l : list json) : Forall P l :=
                        match l with
                        | [] => Forall_nil _
                        | x :: l' => Forall_cons _ (json_rect' x) (go l')
                        end) l)
  | JObj o => HObj o ((fix go (o : list (string * json)) : Forall (fun kv => P (snd kv)) o :=
                        match o with
                        | [] => Forall_nil _
                        | kv :: o' => Forall_cons _ (json_rect' (snd kv)) (go o')
                        end) o)
  end.
End JsonInd.

Fixpoint all_digits (s : string) : bool :=
  match s with
  | EmptyString => true
  | String c s' => is_digit c && all_digits s'
  end.

(** What may follow a value without changing how it is read. *)
Definition starts_ok (s : string) : bool :=
  match s with
  | String c _ => negb (is_digit c)
  | EmptyString => true
  end.

Definition value_start (c : ascii) : bool :=
  is_digit c || Ascii.eqb c "["%char || Ascii.eqb c "{"%char || Ascii.eqb c dq ||
  Ascii.eqb c "t"%char || Ascii.eqb c "f"%char || Ascii.eqb c "n"%char.

Definition rt (j : json) : Prop :=
  forall f rest, json_size j <= f -> starts_ok rest = true ->
  parse_value f (print_json j ++ rest) = Some (j, rest).

(** A selected session of 25 user messages. *)
Definition long_session : Session :=
  {| id := "1"; name := "long"; messages := repeat (userMessage "m" "t") 25 |}.

Definition long_store : Store :=
  {| topic := ""; sessions := [long_session]; currentSessionId := Some "1"%string;
     isLoading := false |}.

(** An upstream answer carrying a generated text. *)
Definition mars_upstream (p : string) : Upstream :=
  UpOk (JObj [("openai", JObj [("generated_text", JStr "Mars is red.")])]).

(** [hi_store] once the reply "Mars" arrived in session "1". *)
Definition replied_store : Store :=
  handleSubmit_settle {| p_topic := "hi"; p_session := Some (number_to_string 1) |}
    (Resolved "Mars") "t2" hi_store.

(** The reply pinned: it moves before the user message. *)
Definition pinned_store : Store := togglePinMessage replied_store 1.

(** The current sessions of [pinned_store] and [hi_store]. *)
Definition pinned_session : Session :=
  Eval vm_compute in match getCurrentSession pinned_store with Some s => s | None => long_session end.

Definition hi_session : Session :=
  Eval vm_compute in match getCurrentSession hi_store with Some s => s | None => long_session end.

(** The reaction map of a message has distinct keys. *)
Definition msg_wf (m : Message) : Prop :=
  match reactions m with Some r => NoDup (map fst r) | None => True end.

(** * Properties *)

(** ** Generic lemmas on the helpers *)

Lemma find_map_current cur f ss :
  find (fun s => id_is (id s) cur) (map_current cur f ss) =
  option_map (fun s => {| id := id s; name := name s; messages := f (messages s) |})
    (find (fun s => id_is (id s) cur) ss).
Proof.
  induction ss as [|s ss IH]; simpl; [reflexivity|].
  destruct (id_is (id s) cur) eqn:E; simpl; rewrite ?E; auto.
Qed.

Lemma nth_error_mapi_from {A B} (f : nat -> A -> B) l k j :
  nth_error (mapi_from f k l) j = option_map (f (k + j)) (nth_error l j).
Proof.
  revert k j; induction l as [|x l IH]; intros k j; destruct j; simpl; auto.
  - rewrite Nat.add_0_r; reflexivity.
  - rewrite IH; f_equal; f_equal; lia.
Qed.

Lemma nth_error_update_at {A} i (g : A -> A) l j :
  nth_error (update_at i g l) j =
  if Nat.eqb j i then option_map g (nth_error l j) else nth_error l j.
Proof.
  unfold update_at, mapi; rewrite nth_error_mapi_from; simpl.
  destruct (nth_error l j); simpl; destruct (Nat.eqb j i); reflexivity.
Qed.

Lemma length_mapi_from {A B} (f : nat -> A -> B) l k :
  length (mapi_from f k l) = length l.
Proof. revert k; induction l; simpl; auto. Qed.

Lemma mapi_from_out_of_range {A} i (g : A -> A) l k :
  k + length l <= i ->
  mapi_from (fun idx x => if Nat.eqb idx i then g x else x) k l = l.
Proof.
  revert k; induction l as [|x l IH]; intros k H; simpl in *; [reflexivity|].
  rewrite (proj2 (Nat.eqb_neq k i)) by lia.
  rewrite IH by lia; reflexivity.
Qed.

Lemma update_at_out_of_range {A} i (g : A -> A) l :
  length l <= i -> update_at i g l = l.
Proof. intros H; apply mapi_from_out_of_range; simpl; lia. Qed.

Lemma msg_at_update st i g :
  msg_at (set_sessions st (map_current (currentSessionId st) (update_at i g) (sessions st))) i =
  option_map g (msg_at st i).
Proof.
  unfold msg_at, getCurrentSession; simpl.
  rewrite find_map_current.
  destruct (find _ (sessions st)) as [s|]; simpl; [|reflexivity].
  rewrite nth_error_update_at, Nat.eqb_refl; reflexivity.
Qed.

Lemma obj_get_set k e v r :
  obj_get k (obj_set e v r) = if String.eqb k e then Some v else obj_get k r.
Proof.
  induction r as [|[k' v'] r IH]; simpl.
  - destruct (String.eqb k e); reflexivity.
  - destruct (String.eqb e k') eqn:E1; simpl.
    + apply String.eqb_eq in E1; subst k'.
      destruct (String.eqb k e); reflexivity.
    + destruct (String.eqb k k') eqn:E2; [|exact IH].
      apply String.eqb_eq in E2; subst k'.
      destruct (String.eqb k e) eqn:E3; [|reflexivity].
      apply String.eqb_eq in E3; subst e; rewrite String.eqb_refl in E1; discriminate.
Qed.

Lemma substring_0_20_nonempty t : t <> ""%string -> substring 0 20 t <> ""%string.
Proof. destruct t; simpl; congruence. Qed.

Lemma session_name_nonempty t : t <> ""%string -> session_name t = substring 0 20 t.
Proof.
  intros H; unfold session_name.
  destruct (String.eqb (substring 0 20 t) "") eqn:E; [|reflexivity].
  apply String.eqb_eq in E; apply substring_0_20_nonempty in H; contradiction.
Qed.

Lemma map_current_none f ss : map_current None f ss = ss.
Proof. induction ss as [|s ss IH]; simpl; [reflexivity|]; rewrite IH; reflexivity. Qed.

(** ** Submitting a topic *)

(** Claim C1 (code_bug).  When a submission creates a session, the
    assistant message is appended to the sessions whose id equals the
    [currentSessionId] captured by the closure, which is still [null]:
    after settlement, whatever the outcome, no session gained a message. *)
Theorem handleSubmit_new_session_reply_dropped st now stamp st1 p o stamp2 :
  currentSessionId st = None ->
  handleSubmit_start st now stamp = (st1, Some p) ->
  sessions (handleSubmit_settle p o stamp2 st1) = sessions st1.
Proof.
  intros Hcur Hstart; unfold handleSubmit_start in Hstart; rewrite Hcur in Hstart.
  destruct (String.eqb (topic st) ""); [discriminate|].
  injection Hstart as <- <-; simpl.
  rewrite map_current_none; reflexivity.
Qed.

Lemma handleSubmit_new_session_reply_dropped_witness :
  sessions (handleSubmit_settle
              {| p_topic := "space exploration"; p_session := None |}
              (Resolved "Mars has two moons.") "10/17/2026, 9:00:05 AM" (fst space_start))
  = sessions (fst space_start)
  /\ map (fun s => length (messages s)) (sessions (fst space_start)) = [1].
Proof.
  split; [|reflexivity].
  apply (handleSubmit_new_session_reply_dropped (set_topic initStore "space exploration")
           1700 "10/17/2026, 9:00:00 AM"); reflexivity.
Defined.

(** With a session selected, the reply does reach it: one user message,
    then one assistant message holding [res.data] or the apology. *)
Lemma handleSubmit_existing_session st now stamp st1 p o stamp2 :
  truthy_str (currentSessionId st) = true ->
  handleSubmit_start st now stamp = (st1, Some p) ->
  sessions (handleSubmit_settle p o stamp2 st1) =
  map_current (currentSessionId st)
    (fun ms => ms ++ [userMessage (topic st) stamp;
                      {| role := assistant;
                         content := match o with Resolved d => d | Failed => apology end;
                         timestamp := stamp2; isPinned := Some false;
                         reactions := Some []; lastEdited := None |}])
    (sessions st).
Proof.
  intros Hcur Hstart; unfold handleSubmit_start in Hstart; rewrite Hcur in Hstart.
  destruct (String.eqb (topic st) ""); [discriminate|].
  injection Hstart as <- <-; simpl.
  unfold map_current; rewrite map_map; apply map_ext; intros s.
  destruct (id_is (id s) (currentSessionId st)) eqn:E; simpl; rewrite ?E;
    [rewrite <- app_assoc; reflexivity | reflexivity].
Qed.

(** Claim C2 (counterexample).  A topic of one space is not rejected: a
    session is created and the remote call is dispatched. *)
Lemma handleSubmit_whitespace_topic_accepted :
  let '(st1, p) := handleSubmit_start (set_topic initStore " ") 0 "t" in
  p = Some {| p_topic := " "; p_session := None |} /\
  map messages (sessions st1) = [[userMessage " " "t"]].
Proof. split; reflexivity. Qed.

(** Claim C2 (amended).  [if (!topic) return;] rejects exactly the empty
    topic: it leaves the store as it is and dispatches nothing.  Any other
    topic, whitespace-only included, is submitted: the user message is
    appended to the current session, or to a new session when none is
    selected, the input is cleared, loading starts and the remote call is
    dispatched. *)
Theorem handleSubmit_empty_topic_guard st now stamp :
  (topic st = ""%string -> handleSubmit_start st now stamp = (st, None)) /\
  (topic st <> ""%string ->
   exists st1,
     handleSubmit_start st now stamp =
       (st1, Some {| p_topic := topic st; p_session := currentSessionId st |}) /\
     topic st1 = ""%string /\ isLoading st1 = true /\
     (truthy_str (currentSessionId st) = false ->
      sessions st1 = sessions st ++
        [{| id := number_to_string now; name := session_name (topic st);
            messages := [userMessage (topic st) stamp] |}] /\
      currentSessionId st1 = Some (number_to_string now)) /\
     (truthy_str (currentSessionId st) = true ->
      sessions st1 = map_current (currentSessionId st)
                       (fun ms => ms ++ [userMessage (topic st) stamp]) (sessions st) /\
      currentSessionId st1 = currentSessionId st)).
Proof.
  unfold handleSubmit_start; split; intros H.
  - rewrite H; reflexivity.
  - apply String.eqb_neq in H; rewrite H.
    eexists; split; [reflexivity|].
    destruct (truthy_str (currentSessionId st)); simpl;
      (split; [reflexivity|split; [reflexivity|split; intros Hc]]);
      first [discriminate | split; reflexivity].
Qed.

Lemma handleSubmit_empty_topic_guard_witness :
  handleSubmit_start initStore 0 "t" = (initStore, None) /\
  exists st1,
    handleSubmit_start (set_topic initStore "   ") 5 "t" =
      (st1, Some {| p_topic := "   "; p_session := None |}) /\
    topic st1 = ""%string /\ isLoading st1 = true /\
    (truthy_str None = false ->
     sessions st1 = [] ++ [{| id := number_to_string 5; name := session_name "   ";
                             messages := [userMessage "   " "t"] |}] /\
     currentSessionId st1 = Some (number_to_string 5)) /\
    (truthy_str None = true ->
     sessions st1 = map_current None (fun ms => ms ++ [userMessage "   " "t"]) [] /\
     currentSessionId st1 = None).
Proof.
  split.
  - apply (proj1 (handleSubmit_empty_topic_guard initStore 0 "t")); reflexivity.
  - apply (proj2 (handleSubmit_empty_topic_guard (set_topic initStore "   ") 5 "t")).
    discriminate.
Defined.

(** Claim C5.  A non-empty topic submitted with no session selected
    creates one session, appended to the collection, whose only message is
    the user message with the topic, whose name is the first 20 characters
    of the topic, and whose fresh id becomes the current session. *)
Theorem handleSubmit_creates_session st now stamp :
  topic st <> ""%string ->
  currentSessionId st = None ->
  let '(st1, _) := handleSubmit_start st now stamp in
  sessions st1 = sessions st ++
                 [{| id := number_to_string now;
                     name := substring 0 20 (topic st);
                     messages := [userMessage (topic st) stamp] |}] /\
  currentSessionId st1 = Some (number_to_string now).
Proof.
  intros Ht Hcur; unfold handleSubmit_start; rewrite Hcur; simpl.
  rewrite (proj2 (String.eqb_neq _ _) Ht); simpl.
  rewrite session_name_nonempty by exact Ht; split; reflexivity.
Qed.

Lemma handleSubmit_creates_session_witness :
  let '(st1, _) := handleSubmit_start (set_topic initStore "space exploration") 1700 "t" in
  sessions st1 = [{| id := "1700"; name := "space exploration";
                     messages := [userMessage "space exploration" "t"] |}] /\
  currentSessionId st1 = Some "1700"%string.
Proof.
  apply (handleSubmit_creates_session (set_topic initStore "space exploration") 1700 "t");
    [discriminate | reflexivity].
Defined.

(** ** Deleting a session *)

(** Claim C8.  [handleDeleteSession] keeps exactly the sessions whose id
    differs from the given one, clears the pointer when it named that id,
    and leaves it as it was otherwise. *)
Theorem handleDeleteSession_spec st sid :
  sessions (handleDeleteSession st sid) =
    filter (fun s => negb (String.eqb (id s) sid)) (sessions st) /\
  currentSessionId (handleDeleteSession st sid) =
    match currentSessionId st with
    | Some c => if String.eqb c sid then None else Some c
    | None => None
    end.
Proof.
  unfold handleDeleteSession, id_is.
  destruct (currentSessionId st) as [c|] eqn:Hc; simpl.
  - rewrite (String.eqb_sym sid c).
    destruct (String.eqb c sid); simpl; rewrite ?Hc; split; reflexivity.
  - rewrite Hc; split; reflexivity.
Qed.

(** ** Reactions *)

Lemma msg_at_addReaction st i e :
  truthy_str (currentSessionId st) = true ->
  msg_at (addReaction st i e) i = option_map (react e) (msg_at st i).
Proof.
  intros H; unfold addReaction; rewrite H; simpl; apply msg_at_update.
Qed.

Lemma count_react m e k :
  count (react e m) k =
  if String.eqb k e
  then Some (match count m e with Some v => v | None => 0 end + 1)
  else count m k.
Proof.
  unfold count, react; simpl.
  destruct (reactions m) as [r|]; rewrite obj_get_set; reflexivity.
Qed.

(** Claim C7.  On the message at position [i] of the current session,
    [addReaction] with an absent emoji sets its counter to 1, a second call
    with the same emoji sets it to 2, and a call with any emoji leaves the
    counter of every other emoji as it was. *)
Theorem addReaction_counts st i e m :
  truthy_str (currentSessionId st) = true ->
  msg_at st i = Some m ->
  count m e = None ->
  (exists m1, msg_at (addReaction st i e) i = Some m1 /\ count m1 e = Some 1) /\
  (exists m2, msg_at (addReaction (addReaction st i e) i e) i = Some m2 /\
              count m2 e = Some 2) /\
  (forall e', exists m3, msg_at (addReaction st i e') i = Some m3 /\
              forall k, k <> e' -> count m3 k = count m k).
Proof.
  intros Hcur Hm He.
  assert (Hcur1 : truthy_str (currentSessionId (addReaction st i e)) = true)
    by (unfold addReaction; rewrite Hcur; exact Hcur).
  split; [|split].
  - exists (react e m); rewrite msg_at_addReaction, Hm by exact Hcur; split; [reflexivity|].
    rewrite count_react, String.eqb_refl, He; reflexivity.
  - exists (react e (react e m)).
    rewrite msg_at_addReaction, msg_at_addReaction, Hm by assumption; split; [reflexivity|].
    rewrite count_react, String.eqb_refl, count_react, String.eqb_refl, He; reflexivity.
  - intros e'; exists (react e' m); rewrite msg_at_addReaction, Hm by exact Hcur.
    split; [reflexivity|]; intros k Hk.
    rewrite count_react; apply String.eqb_neq in Hk; rewrite Hk; reflexivity.
Qed.

(** A store whose current session "1" holds one user message with no
    reactions. *)
Definition one_msg_store : Store :=
  {| topic := ""; sessions := [{| id := "1"; name := "hi"; messages := [userMessage "hi" "t"] |}];
     currentSessionId := Some "1"%string; isLoading := false |}.

(** A store whose only message carries an en-GB [toLocaleString()] stamp. *)
Definition gb_store : Store :=
  {| topic := ""; sessions := [{| id := "1"; name := "hi"; messages := [userMessage "hi" "17/10/2026, 09:00:00"] |}];
     currentSessionId := Some "1"%string; isLoading := false |}.

Lemma addReaction_counts_witness :
  (exists m1, msg_at (addReaction one_msg_store 0 "+1") 0 = Some m1 /\ count m1 "+1" = Some 1) /\
  (exists m2, msg_at (addReaction (addReaction one_msg_store 0 "+1") 0 "+1") 0 = Some m2 /\
              count m2 "+1" = Some 2) /\
  (forall e', exists m3, msg_at (addReaction one_msg_store 0 e') 0 = Some m3 /\
              forall k, k <> e' -> count m3 k = count (userMessage "hi" "t") k).
Proof.
  apply (addReaction_counts one_msg_store 0 "+1" (userMessage "hi" "t")); reflexivity.
Defined.

(** ** Editing a message *)

Lemma handleEditMessage_at parse_date st i c now nowStr m :
  truthy_str (currentSessionId st) = true ->
  msg_at st i = Some m ->
  handleEditMessage parse_date st i c now nowStr =
  if match parse_date (timestamp m) with
     | Some t => Z.ltb 300000 (now - t) | None => false end
  then EditAlert "Cannot edit messages older than 5 minutes." st
  else EditDone (set_sessions st
         (map_current (currentSessionId st) (update_at i (edit_msg c nowStr)) (sessions st))).
Proof.
  intros Hcur Hm; unfold msg_at in Hm; unfold handleEditMessage; rewrite Hcur; simpl.
  destruct (getCurrentSession st) as [s'|]; [|discriminate].
  rewrite Hm; reflexivity.
Qed.

(** The window for stamps that [new Date] reads back as a time [t]: with
    a current session selected, the edit succeeds exactly when at most 5
    minutes (300000 ms) have passed since [t]; it then replaces the
    content and stamps [lastEdited], all other fields of the message
    kept; otherwise it raises the alert and the store is left as it was. *)
Theorem handleEditMessage_window parse_date st i c now nowStr m t :
  truthy_str (currentSessionId st) = true ->
  msg_at st i = Some m ->
  parse_date (timestamp m) = Some t ->
  ((now - t <= 300000)%Z ->
   exists st', handleEditMessage parse_date st i c now nowStr = EditDone st' /\
               msg_at st' i = Some (edit_msg c nowStr m)) /\
  ((now - t > 300000)%Z ->
   handleEditMessage parse_date st i c now nowStr =
   EditAlert "Cannot edit messages older than 5 minutes." st).
Proof.
  intros Hcur Hm Ht.
  rewrite (handleEditMessage_at parse_date st i c now nowStr m Hcur Hm), Ht.
  split; intros Hle.
  - rewrite (proj2 (Z.ltb_ge _ _)) by lia.
    eexists; split; [reflexivity|].
    rewrite msg_at_update, Hm; reflexivity.
  - rewrite (proj2 (Z.ltb_lt _ _)) by lia; reflexivity.
Qed.

Lemma handleEditMessage_window_witness :
  (exists st', handleEditMessage (fun _ => Some 0%Z) one_msg_store 0 "hello" 1000 "t1"
               = EditDone st' /\
               msg_at st' 0 = Some (edit_msg "hello" "t1" (userMessage "hi" "t"))) /\
  handleEditMessage (fun _ => Some 0%Z) one_msg_store 0 "hello" 400000 "t1" =
  EditAlert "Cannot edit messages older than 5 minutes." one_msg_store.
Proof.
  split.
  - apply (proj1 (handleEditMessage_window (fun _ => Some 0%Z) one_msg_store 0 "hello"
                    1000 "t1" (userMessage "hi" "t") 0 eq_refl eq_refl eq_refl)); lia.
  - apply (proj2 (handleEditMessage_window (fun _ => Some 0%Z) one_msg_store 0 "hello"
                    400000 "t1" (userMessage "hi" "t") 0 eq_refl eq_refl eq_refl)); lia.
Defined.

(** Claim C4 (code bug).  When [new Date(timestamp)] is an Invalid Date,
    as for a [toLocaleString()] stamp written in a day-first locale such
    as en-GB ("17/10/2026, 09:00:00"), [timeDiff] is [NaN] and
    [timeDiff > 5] is false: for every current time [now], however long
    after the message was sent, the edit is applied, the content replaced
    and [lastEdited] stamped, so the 5-minute limit does not hold. *)
Theorem handleEditMessage_unparsable_stamp parse_date st i c now nowStr m :
  truthy_str (currentSessionId st) = true ->
  msg_at st i = Some m ->
  parse_date (timestamp m) = None ->
  exists st', handleEditMessage parse_date st i c now nowStr = EditDone st' /\
              msg_at st' i = Some (edit_msg c nowStr m).
Proof.
  intros Hcur Hm Ht.
  rewrite (handleEditMessage_at parse_date st i c now nowStr m Hcur Hm), Ht.
  eexists; split; [reflexivity|].
  rewrite msg_at_update, Hm; reflexivity.
Qed.

Lemma handleEditMessage_unparsable_stamp_witness :
  exists st', handleEditMessage (fun _ => None) gb_store 0 "edited" 86400000%Z "18/10/2026, 09:00:00"
                = EditDone st' /\
              msg_at st' 0 = Some (edit_msg "edited" "18/10/2026, 09:00:00" (userMessage "hi" "17/10/2026, 09:00:00")).
Proof.
  apply (handleEditMessage_unparsable_stamp (fun _ => None) gb_store 0 "edited" 86400000%Z
           "18/10/2026, 09:00:00" (userMessage "hi" "17/10/2026, 09:00:00")); reflexivity.
Defined.

(** ** Pinning *)

Lemma insert_pin_unpinned x a b :
  pinned x = false ->
  Forall (fun y => pinned y = true) a ->
  Forall (fun y => pinned y = false) b ->
  insert_by pin_cmp x (a ++ b) = a ++ x :: b.
Proof.
  intros Hx Ha Hb; induction Ha as [|y a Hy Ha IH]; simpl.
  - destruct Hb as [|y b Hy Hb]; simpl; [reflexivity|].
    unfold pin_cmp; rewrite Hx, Hy; reflexivity.
  - unfold pin_cmp at 1; rewrite Hx, Hy; simpl; rewrite IH; reflexivity.
Qed.

Lemma insert_pin_pinned x l :
  pinned x = true -> insert_by pin_cmp x l = x :: l.
Proof.
  intros Hx; destruct l as [|y l]; simpl; [reflexivity|].
  unfold pin_cmp; rewrite Hx; destruct (pinned y); reflexivity.
Qed.

(** The stable sort with the pin comparator puts the pinned messages
    first and the others after them, each group in its original order. *)
Lemma pin_sort_partition l :
  pin_sort l = filter pinned l ++ filter (fun m => negb (pinned m)) l.
Proof.
  unfold pin_sort; induction l as [|x l IH]; simpl; [reflexivity|].
  rewrite IH; destruct (pinned x) eqn:Hx; simpl.
  - apply insert_pin_pinned; exact Hx.
  - apply insert_pin_unpinned; [exact Hx| |].
    + apply Forall_forall; intros y Hy; apply filter_In in Hy; apply Hy.
    + apply Forall_forall; intros y Hy; apply filter_In in Hy.
      destruct Hy as [_ Hy]; destruct (pinned y); [discriminate|reflexivity].
Qed.

(** Claim C9 (counterexample).  Pinning the second message moves it to
    the front: the order of the message sequence is not kept. *)
Lemma togglePinMessage_reorders :
  map messages (sessions (togglePinMessage two_msg_store 1)) =
  [[flip_pin (userMessage "b" "t"); userMessage "a" "t"]] /\
  map messages (sessions (togglePinMessage two_msg_store 1)) <>
  [update_at 1 flip_pin [userMessage "a" "t"; userMessage "b" "t"]].
Proof.
  split; [reflexivity|]; intros H.
  apply (f_equal (map (map content))) in H; vm_compute in H; discriminate H.
Qed.

(** Claim C9 (amended).  Without a current session [togglePinMessage] is
    a no-op.  Otherwise it flips [isPinned] of the message at position [i]
    of the current session (its other fields and the other messages
    untouched) and then reorders that session's messages stably, pinned
    ones first; the other sessions are unchanged. *)
Theorem togglePinMessage_spec st i :
  togglePinMessage st i =
  if truthy_str (currentSessionId st) then
    set_sessions st
      (map (fun s =>
              if id_is (id s) (currentSessionId st) then
                let l := update_at i flip_pin (messages s) in
                {| id := id s; name := name s;
                   messages := filter pinned l ++ filter (fun m => negb (pinned m)) l |}
              else s) (sessions st))
  else st.
Proof.
  unfold togglePinMessage, map_current.
  destruct (truthy_str (currentSessionId st)); simpl; [|reflexivity].
  f_equal; apply map_ext; intros s.
  destruct (id_is (id s) (currentSessionId st)); [|reflexivity].
  rewrite pin_sort_partition; reflexivity.
Qed.

(** ** Pin order is an invariant of the page *)

Lemma pin_sortedb_app_unpinned l x :
  pinned x = false -> pin_sortedb l = true -> pin_sortedb (l ++ [x]) = true.
Proof.
  intros Hx; induction l as [|y l IH]; simpl; intros H.
  - rewrite Hx; reflexivity.
  - apply andb_true_iff in H as [H1 H2]; rewrite IH by exact H2.
    destruct (pinned y); [reflexivity|].
    rewrite forallb_app; simpl; rewrite H1, Hx; reflexivity.
Qed.

Lemma pin_sortedb_partition l :
  pin_sortedb (filter pinned l ++ filter (fun m => negb (pinned m)) l) = true.
Proof.
  assert (Hgen : forall a b, forallb pinned a = true ->
                   forallb (fun m => negb (pinned m)) b = true ->
                   pin_sortedb (a ++ b) = true).
  { intros a b Ha Hb; induction a as [|x a IH]; simpl in *.
    - induction b as [|y b IHb]; simpl in *; [reflexivity|].
      apply andb_true_iff in Hb as [Hy Hb].
      destruct (pinned y); [discriminate|]; simpl; rewrite Hb; apply IHb, Hb.
    - apply andb_true_iff in Ha as [Hx Ha]; rewrite Hx; apply IH, Ha. }
  apply Hgen.
  - apply forallb_forall; intros y Hy; apply filter_In in Hy; apply Hy.
  - apply forallb_forall; intros y Hy; apply filter_In in Hy; apply Hy.
Qed.

Lemma forallb_mapi_from (p : Message -> bool) (f : nat -> Message -> Message) l k :
  (forall j x, p (f j x) = p x) ->
  forallb p (mapi_from f k l) = forallb p l.
Proof.
  intros Hf; revert k; induction l as [|x l IH]; intros k; simpl; [reflexivity|].
  rewrite Hf, IH; reflexivity.
Qed.

Lemma pin_sortedb_mapi_from (f : nat -> Message -> Message) l k :
  (forall j x, pinned (f j x) = pinned x) ->
  pin_sortedb (mapi_from f k l) = pin_sortedb l.
Proof.
  intros Hf; revert k; induction l as [|x l IH]; intros k; simpl; [reflexivity|].
  rewrite Hf, IH, forallb_mapi_from; [reflexivity|].
  intros j y; rewrite Hf; reflexivity.
Qed.

Lemma pin_sortedb_update_at i g l :
  (forall x, pinned (g x) = pinned x) ->
  pin_sortedb (update_at i g l) = pin_sortedb l.
Proof.
  intros Hg; apply pin_sortedb_mapi_from; intros j x.
  destruct (Nat.eqb j i); [apply Hg | reflexivity].
Qed.

Lemma map_current_sorted cur f ss :
  (forall l, pin_sortedb l = true -> pin_sortedb (f l) = true) ->
  Forall (fun s => pin_sortedb (messages s) = true) ss ->
  Forall (fun s => pin_sortedb (messages s) = true) (map_current cur f ss).
Proof.
  intros Hf H; unfold map_current; apply Forall_map.
  eapply Forall_impl; [|exact H]; intros s Hs.
  destruct (id_is (id s) cur); simpl; auto.
Qed.

Lemma pin_sortedb_userMessage t stamp : pin_sortedb [userMessage t stamp] = true.
Proof. reflexivity. Qed.

(** Every state the page reaches keeps each session's messages pinned
    first (the sort of [togglePinMessage] establishes it, the other
    handlers append unpinned messages or keep pin flags). *)
Lemma reachable_pin_sorted st : reachable st -> store_pin_sorted st.
Proof.
  unfold store_pin_sorted; induction 1 as [|l st st' Hr IH Hs|st Hr IH]; simpl.
  - constructor.
  - destruct Hs as [st t|st now stamp st' p Hst|st p o stamp|st sid|st sid|st i
                   |pd st i c now nowStr st' Hst|st i e]; simpl; auto.
    + unfold handleSubmit_start in Hst.
      destruct (String.eqb (topic st) ""); [injection Hst as <- _; exact IH|].
      injection Hst as <- _.
      destruct (negb (truthy_str (currentSessionId st))); simpl.
      * apply Forall_app; split; [exact IH|]; repeat constructor.
      * apply map_current_sorted; [|exact IH].
        intros l Hl; apply pin_sortedb_app_unpinned; [reflexivity|exact Hl].
    + apply map_current_sorted; [|exact IH].
      intros l Hl; apply pin_sortedb_app_unpinned; [reflexivity|exact Hl].
    + unfold handleDeleteSession.
      destruct (id_is sid (currentSessionId st)); simpl;
        apply Forall_forall; intros s Hs; apply filter_In in Hs as [Hs _];
        rewrite Forall_forall in IH; apply IH, Hs.
    + unfold togglePinMessage.
      destruct (negb (truthy_str (currentSessionId st))); [exact IH|simpl].
      apply map_current_sorted; [|exact IH].
      intros l' _; unfold pin_sort; rewrite pin_sort_partition; apply pin_sortedb_partition.
    + unfold handleEditMessage in Hst.
      destruct (negb (truthy_str (currentSessionId st))); [injection Hst as <-; exact IH|].
      destruct (getCurrentSession st) as [s|]; [|discriminate].
      destruct (nth_error (messages s) i) as [m|]; [|discriminate].
      destruct (match pd (timestamp m) with
                | Some t => Z.ltb 300000 (now - t) | None => false end); [discriminate|].
      injection Hst as <-; simpl.
      apply map_current_sorted; [|exact IH].
      intros l' Hl; rewrite pin_sortedb_update_at; [exact Hl|reflexivity].
    + unfold addReaction.
      destruct (negb (truthy_str (currentSessionId st))); [exact IH|simpl].
      apply map_current_sorted; [|exact IH].
      intros l' Hl; rewrite pin_sortedb_update_at; [exact Hl|reflexivity].
  - exact IH.
Qed.

Lemma pin_sort_sorted l : pin_sortedb l = true -> pin_sort l = l.
Proof.
  rewrite pin_sort_partition; induction l as [|x l IH]; simpl; [reflexivity|].
  intros H; apply andb_true_iff in H as [H1 H2].
  destruct (pinned x) eqn:Hx; simpl.
  - rewrite IH by exact H2; reflexivity.
  - assert (Hp : filter pinned l = []).
    { rewrite forallb_forall in H1.
      destruct (filter pinned l) as [|y ys] eqn:E; [reflexivity|].
      assert (Hy : In y (filter pinned l)) by (rewrite E; left; reflexivity).
      apply filter_In in Hy as [Hy1 Hy2]; specialize (H1 y Hy1).
      rewrite Hy2 in H1; discriminate. }
    assert (Hn : filter (fun m => negb (pinned m)) l = l).
    { apply forallb_filter_id; exact H1. }
    rewrite Hp, Hn; reflexivity.
Qed.

Lemma NoDup_map_inj {A B} (f : A -> B) l a b :
  NoDup (map f l) -> In a l -> In b l -> f a = f b -> a = b.
Proof.
  induction l as [|x l IH]; simpl; [tauto|].
  intros Hnd Ha Hb Hab; inversion Hnd as [|? ? Hx Hnd']; subst.
  destruct Ha as [<-|Ha], Hb as [<-|Hb]; auto.
  - exfalso; apply Hx; rewrite Hab; apply in_map, Hb.
  - exfalso; apply Hx; rewrite <- Hab; apply in_map, Ha.
Qed.

Lemma map_current_same cur f ss :
  (forall s, In s ss -> id_is (id s) cur = true -> f (messages s) = messages s) ->
  map_current cur f ss = ss.
Proof.
  unfold map_current; induction ss as [|s ss IH]; intros H; simpl; [reflexivity|].
  rewrite IH by (intros s' Hs'; apply H; right; exact Hs').
  destruct (id_is (id s) cur) eqn:E; [|reflexivity].
  rewrite H by (first [now left | exact E]); destruct s; reflexivity.
Qed.

Lemma set_sessions_same st : set_sessions st (sessions st) = st.
Proof. destruct st; reflexivity. Qed.

Lemma id_is_same a b cur : id_is a cur = true -> id_is b cur = true -> a = b.
Proof.
  destruct cur as [c|]; simpl; [|discriminate].
  intros Ha Hb; apply String.eqb_eq in Ha, Hb; congruence.
Qed.

(** The current session found by [getCurrentSession] is the only session
    a [map_current] over the current id can touch. *)
Lemma map_current_on_current st s f :
  NoDup (map id (sessions st)) ->
  getCurrentSession st = Some s ->
  f (messages s) = messages s ->
  map_current (currentSessionId st) f (sessions st) = sessions st.
Proof.
  intros Hnd Hs Hf; apply find_some in Hs as [Hin Hid].
  apply map_current_same; intros s' Hin' Hid'.
  rewrite (NoDup_map_inj id (sessions st) s' s Hnd Hin' Hin) by
    (eapply id_is_same; eauto).
  exact Hf.
Qed.

(** ** Out-of-range message positions *)

(** Claim C10.  In any state the page reaches, with a current session
    selected (session ids unique) and a position past the end of its
    messages, [togglePinMessage] and [addReaction] leave the store as it
    was, while [handleEditMessage] dereferences [undefined] and throws. *)
Theorem out_of_range_message_ops st s i e :
  reachable st ->
  NoDup (map id (sessions st)) ->
  truthy_str (currentSessionId st) = true ->
  getCurrentSession st = Some s ->
  length (messages s) <= i ->
  togglePinMessage st i = st /\
  addReaction st i e = st /\
  (forall parse_date c now nowStr,
      handleEditMessage parse_date st i c now nowStr = EditFault).
Proof.
  intros Hr Hnd Hcur Hs Hi.
  assert (Hsorted : pin_sortedb (messages s) = true).
  { pose proof (reachable_pin_sorted st Hr) as Hall; unfold store_pin_sorted in Hall.
    rewrite Forall_forall in Hall; apply Hall.
    apply find_some in Hs; apply Hs. }
  split; [|split].
  - unfold togglePinMessage; rewrite Hcur; simpl.
    rewrite (map_current_on_current st s); [apply set_sessions_same|exact Hnd|exact Hs|].
    rewrite update_at_out_of_range by exact Hi; apply pin_sort_sorted, Hsorted.
  - unfold addReaction; rewrite Hcur; simpl.
    rewrite (map_current_on_current st s); [apply set_sessions_same|exact Hnd|exact Hs|].
    apply update_at_out_of_range, Hi.
  - intros pd c now nowStr; unfold handleEditMessage; rewrite Hcur; simpl.
    rewrite Hs; rewrite (proj2 (nth_error_None _ _) Hi); reflexivity.
Qed.

Lemma hi_store_reachable : reachable hi_store.
Proof.
  apply (reach_step LSubmit (set_topic initStore "hi")).
  - apply (reach_step LType initStore); [apply reach_init | apply step_type].
  - apply (step_submit _ 1 "t" _ (snd (handleSubmit_start (set_topic initStore "hi") 1 "t"))).
    reflexivity.
Defined.

Lemma out_of_range_message_ops_witness :
  togglePinMessage hi_store 3 = hi_store /\
  addReaction hi_store 3 "+1" = hi_store /\
  (forall parse_date c now nowStr,
      handleEditMessage parse_date hi_store 3 c now nowStr = EditFault).
Proof.
  eapply (out_of_range_message_ops hi_store _ 3 "+1").
  - exact hi_store_reachable.
  - vm_compute; repeat constructor; simpl; tauto.
  - reflexivity.
  - reflexivity.
  - simpl; lia.
Defined.

(** ** Roles and contents of existing messages *)

(** Claim C3 (code_bug).  [handleEditMessage] checks the time window but
    not the role: one second after it was written, the assistant message
    at position 1 is rewritten. *)
Theorem handleEditMessage_edits_assistant :
  exists st',
    handleEditMessage (fun _ => Some 0%Z) reply_store 1 "edited" 1000 "t1" = EditDone st' /\
    msg_at reply_store 1 = Some {| role := assistant; content := "reply"; timestamp := "t0";
                                   isPinned := Some false; reactions := Some [];
                                   lastEdited := None |} /\
    msg_at st' 1 = Some {| role := assistant; content := "edited"; timestamp := "t0";
                           isPinned := Some false; reactions := Some [];
                           lastEdited := Some "t1"%string |}.
Proof. eexists; split; [reflexivity|split; reflexivity]. Qed.

Lemma In_mapi_from {A B} (f : nat -> A -> B) l k y :
  In y (mapi_from f k l) -> exists j x, In x l /\ y = f j x.
Proof.
  revert k; induction l as [|x l IH]; intros k; simpl; [tauto|].
  intros [<-|H]; [exists k, x; auto|].
  destruct (IH (S k) H) as (j & x' & Hx' & ->); exists j, x'; auto.
Qed.

Lemma In_update_at {A} i (g : A -> A) l y :
  In y (update_at i g l) -> exists x, In x l /\ (y = x \/ y = g x).
Proof.
  unfold update_at, mapi; intros H; apply In_mapi_from in H as (j & x & Hx & ->).
  exists x; split; [exact Hx|]; destruct (Nat.eqb j i); auto.
Qed.

Lemma In_pin_sort l y : In y (pin_sort l) -> In y l.
Proof.
  rewrite pin_sort_partition; intros H; apply in_app_or in H as [H|H];
    apply filter_In in H; apply H.
Qed.

Lemma map_current_origin (R : Message -> Message -> Prop) (F : Message -> Prop)
    cur f ss s' m' :
  (forall m, R m m) ->
  (forall l y, In y (f l) -> (exists x, In x l /\ R x y) \/ F y) ->
  In s' (map_current cur f ss) -> In m' (messages s') ->
  (exists s m, In s ss /\ In m (messages s) /\ R m m') \/ F m'.
Proof.
  intros Hrefl Hf Hs' Hm'; unfold map_current in Hs'.
  apply in_map_iff in Hs' as (s & <- & Hs).
  destruct (id_is (id s) cur); simpl in Hm'.
  - destruct (Hf _ _ Hm') as [(x & Hx & Hr)|HF]; [left; exists s, x; auto|right; exact HF].
  - left; exists s, m'; auto.
Qed.

(** No handler changes the role of a message: every message after a
    transition is an earlier message with the same role (and, except for
    an edit, the same content), or a new one: a user message made by a
    submission or an assistant message made by a settlement. *)
Lemma step_message_origin l st st' s' m' :
  step l st st' -> In s' (sessions st') -> In m' (messages s') ->
  (exists s m, In s (sessions st) /\ In m (messages s) /\ role m = role m' /\
               (l = LEdit \/ content m = content m')) \/
  (l = LSubmit /\ role m' = user) \/ (l = LSettle /\ role m' = assistant).
Proof.
  intros Hst.
  set (R := fun m m0 => role m = role m0 /\ (l = LEdit \/ content m = content m0)).
  assert (Hrefl : forall m, R m m) by (intros m; split; auto).
  destruct Hst as [st t|st now stamp st1 p Hst|st p o stamp|st sid|st sid|st i
                  |pd st i c now nowStr st1 Hst|st i e]; simpl; intros Hs' Hm';
    try (left; exists s', m'; split; [exact Hs'|split; [exact Hm'|apply Hrefl]]).
  - (* submit *)
    unfold handleSubmit_start in Hst.
    destruct (String.eqb (topic st) ""); [injection Hst as <- _; left; exists s', m'; auto|].
    injection Hst as <- _.
    destruct (negb (truthy_str (currentSessionId st))); simpl in Hs'.
    + apply in_app_or in Hs' as [Hs'|[<-|[]]].
      * left; exists s', m'; auto.
      * simpl in Hm'; destruct Hm' as [<-|[]]; right; left; auto.
    + assert (Hf : forall l0 y, In y (l0 ++ [userMessage (topic st) stamp]) ->
                     (exists x, In x l0 /\ R x y) \/ role y = user).
      { intros l0 y Hy; apply in_app_or in Hy as [Hy|[<-|[]]];
          [left; exists y; auto|right; reflexivity]. }
      destruct (map_current_origin R _ _ _ _ _ _ Hrefl Hf Hs' Hm') as [H|H];
        [left; exact H|right; left; auto].
  - (* settle *)
    set (am := {| role := assistant;
                  content := match o with Resolved d => d | Failed => apology end;
                  timestamp := stamp; isPinned := Some false; reactions := Some [];
                  lastEdited := None |}) in Hs'.
    assert (Hf : forall l0 y, In y (l0 ++ [am]) ->
                   (exists x, In x l0 /\ R x y) \/ role y = assistant).
    { intros l0 y Hy; apply in_app_or in Hy as [Hy|[<-|[]]];
        [left; exists y; auto|right; reflexivity]. }
    destruct (map_current_origin R _ _ _ _ _ _ Hrefl Hf Hs' Hm') as [H|H];
      [left; exact H|right; right; auto].
  - (* delete *)
    unfold handleDeleteSession in Hs'.
    destruct (id_is sid (currentSessionId st)); simpl in Hs';
      apply filter_In in Hs' as [Hs' _]; left; exists s', m'; auto.
  - (* pin *)
    unfold togglePinMessage in Hs'.
    destruct (negb (truthy_str (currentSessionId st))); [left; exists s', m'; auto|].
    simpl in Hs'.
    assert (Hf : forall l0 y, In y (pin_sort (update_at i flip_pin l0)) ->
                   (exists x, In x l0 /\ R x y) \/ False).
    { intros l0 y Hy; left; apply In_pin_sort, In_update_at in Hy as (x & Hx & [->| ->]);
        exists x; split; auto; split; [reflexivity|right; reflexivity]. }
    destruct (map_current_origin R _ _ _ _ _ _ Hrefl Hf Hs' Hm') as [H|[]]; left; exact H.
  - (* edit *)
    unfold handleEditMessage in Hst.
    destruct (negb (truthy_str (currentSessionId st))); [injection Hst as <-; left; exists s', m'; auto|].
    destruct (getCurrentSession st) as [s|]; [|discriminate].
    destruct (nth_error (messages s) i) as [m|]; [|discriminate].
    destruct (match pd (timestamp m) with
              | Some t => Z.ltb 300000 (now - t) | None => false end); [discriminate|].
    injection Hst as <-; simpl in Hs'.
    assert (Hf : forall l0 y, In y (update_at i (edit_msg c nowStr) l0) ->
                   (exists x, In x l0 /\ R x y) \/ False).
    { intros l0 y Hy; left; apply In_update_at in Hy as (x & Hx & [->| ->]);
        exists x; split; auto; split; [reflexivity|left; reflexivity]. }
    destruct (map_current_origin R _ _ _ _ _ _ Hrefl Hf Hs' Hm') as [H|[]]; left; exact H.
  - (* react *)
    unfold addReaction in Hs'.
    destruct (negb (truthy_str (currentSessionId st))); [left; exists s', m'; auto|].
    simpl in Hs'.
    assert (Hf : forall l0 y, In y (update_at i (react e) l0) ->
                   (exists x, In x l0 /\ R x y) \/ False).
    { intros l0 y Hy; left; apply In_update_at in Hy as (x & Hx & [->| ->]);
        exists x; split; auto; split; [reflexivity|right; reflexivity]. }
    destruct (map_current_origin R _ _ _ _ _ _ Hrefl Hf Hs' Hm') as [H|[]]; left; exact H.
Qed.

(** ** The JSON round trip *)

Lemma sapp_assoc (a b c : string) : ((a ++ b) ++ c = a ++ (b ++ c))%string.
Proof. induction a; simpl; congruence. Qed.

Lemma sapp_nil_r (a : string) : (a ++ "")%string = a.
Proof. induction a; simpl; congruence. Qed.

Lemma slength_app (a b : string) : String.length (a ++ b) = String.length a + String.length b.
Proof. induction a; simpl; auto. Qed.

(** Each escaped code unit reads back as itself (checked on all 256). *)
Lemma parse_chars_escape_char c f rest :
  parse_chars (S f) (escape_char c ++ rest) =
  match parse_chars f rest with
  | Some (t, r) => Some (String c t, r)
  | None => None
  end.
Proof.
  destruct c as [[] [] [] [] [] [] [] []]; reflexivity.
Qed.

Lemma escape_char_length c : 1 <= String.length (escape_char c).
Proof. destruct c as [[] [] [] [] [] [] [] []]; simpl; lia. Qed.

Lemma escape_string_length s : String.length s <= String.length (escape_string s).
Proof.
  induction s as [|c s IH]; simpl; [lia|].
  rewrite slength_app; pose proof (escape_char_length c); lia.
Qed.

Lemma parse_chars_quote s f rest :
  String.length s < f ->
  parse_chars f (escape_string s ++ String dq rest) = Some (s, rest).
Proof.
  revert f; induction s as [|c s IH]; intros f Hf; simpl in *.
  - destruct f; [lia|]; reflexivity.
  - destruct f as [|f]; [lia|].
    rewrite sapp_assoc, parse_chars_escape_char, IH by lia; reflexivity.
Qed.

Lemma string_of_uint_digits u : all_digits (NilEmpty.string_of_uint u) = true.
Proof. induction u; simpl; auto. Qed.

Lemma number_to_string_shape n :
  exists c r, number_to_string n = String c r /\ is_digit c = true /\ all_digits r = true.
Proof.
  unfold number_to_string, NilZero.string_of_uint.
  destruct (Nat.to_uint n);
    [exists "0"%char, ""; auto|..];
    simpl; eexists _, _; (split; [reflexivity|split; [reflexivity|apply string_of_uint_digits]]).
Qed.

Lemma take_digits_app d rest :
  all_digits d = true -> starts_ok rest = true -> take_digits (d ++ rest) = (d, rest).
Proof.
  intros Hd Hr; induction d as [|c d IH]; simpl in *.
  - destruct rest as [|c r]; simpl in *; [reflexivity|].
    destruct (is_digit c); [discriminate|reflexivity].
  - apply andb_true_iff in Hd as [Hc Hd]; rewrite Hc, IH by exact Hd; reflexivity.
Qed.

Lemma string_of_uint_nonnil u :
  u <> Decimal.Nil -> NilZero.string_of_uint u = NilEmpty.string_of_uint u.
Proof. destruct u; [congruence|reflexivity..]. Qed.

Lemma parse_number_print n rest :
  starts_ok rest = true -> parse_number (number_to_string n ++ rest) = Some (JNum n, rest).
Proof.
  intros Hr; destruct (number_to_string_shape n) as (c & r & Hs & Hc & Hrd).
  unfold parse_number; rewrite take_digits_app; [|rewrite Hs; simpl; rewrite Hc; exact Hrd|exact Hr].
  rewrite Hs; simpl String.append; rewrite <- Hs.
  unfold number_to_string; pose proof (DecimalNat.Unsigned.of_to n) as E; revert E.
  destruct (Nat.to_uint n); intros E; rewrite <- E; [reflexivity|..];
    rewrite string_of_uint_nonnil, NilEmpty.usu by discriminate; reflexivity.
Qed.

Lemma parse_value_digit f c r :
  is_digit c = true -> parse_value (S f) (String c r) = parse_number (String c r).
Proof. destruct c as [[] [] [] [] [] [] [] []]; intros H; try discriminate H; reflexivity. Qed.

Lemma print_json_start j : exists c r, print_json j = String c r /\ value_start c = true.
Proof.
  destruct j as [|[]|n|s|l|o]; simpl; try (eexists _, _; split; reflexivity).
  destruct (number_to_string_shape n) as (c & r & Hs & Hc & _).
  exists c, r; split; [exact Hs|unfold value_start; rewrite Hc; reflexivity].
Qed.

Lemma parse_arr_value_start f c r :
  value_start c = true ->
  parse_arr (S f) (String c r) =
  match parse_items f (String c r) with Some (l, r') => Some (JArr l, r') | None => None end.
Proof. destruct c as [[] [] [] [] [] [] [] []]; intros H; try discriminate H; reflexivity. Qed.

Lemma parse_items_S f s :
  parse_items (S f) s =
  match parse_value f s with
  | Some (v, r) =>
      match skip_ws r with
      | String "," r' =>
          match parse_items f r' with Some (vs, r'') => Some (v :: vs, r'') | None => None end
      | String "]" r' => Some ([v], r')
      | _ => None
      end
  | None => None
  end.
Proof. reflexivity. Qed.

Lemma parse_value_bracket f r : parse_value (S f) (String "["%char r) = parse_arr f r.
Proof. reflexivity. Qed.

Lemma parse_value_brace f r : parse_value (S f) (String "{"%char r) = parse_obj f r.
Proof. reflexivity. Qed.

Lemma parse_value_quote f r :
  parse_value (S f) (String dq r) =
  match parse_chars (String.length r) r with Some (t, r') => Some (JStr t, r') | None => None end.
Proof. reflexivity. Qed.

Lemma parse_obj_quote f r :
  parse_obj (S f) (String dq r) =
  match parse_members f (String dq r) with
  | Some (kvs, r') => Some (JObj (fold_left (fun o kv => obj_set (fst kv) (snd kv) o) kvs []), r')
  | None => None
  end.
Proof. reflexivity. Qed.

Lemma parse_members_quote f r :
  parse_members (S f) (String dq r) =
  match parse_chars (String.length r) r with
  | Some (k, r1) =>
      match skip_ws r1 with
      | String ":" r2 =>
          match parse_value f r2 with
          | Some (v, r3) =>
              match skip_ws r3 with
              | String "," r4 =>
                  match parse_members f r4 with
                  | Some (kvs, r5) => Some ((k, v) :: kvs, r5)
                  | None => None
                  end
              | String "}" r4 => Some ([(k, v)], r4)
              | _ => None
              end
          | None => None
          end
      | _ => None
      end
  | None => None
  end.
Proof. reflexivity. Qed.
Lemma sapp_cons c (s t : string) : (String c s ++ t = String c (s ++ t))%string.
Proof. reflexivity. Qed.

Lemma skip_ws_nonws c s : is_ws c = false -> skip_ws (String c s) = String c s.
Proof. intros H; simpl; rewrite H; reflexivity. Qed.

Lemma parse_items_print l :
  Forall rt l -> l <> [] -> forall f rest,
  list_sum (map (fun x => S (json_size x)) l) <= f -> starts_ok rest = true ->
  parse_items f (print_elems print_json l ++ rest) = Some (l, rest).
Proof.
  induction 1 as [|x l Hx Hl IH]; intros Hne f rest Hf Hr; [congruence|].
  destruct f as [|f]; simpl in Hf; [lia|].
  rewrite parse_items_S.
  destruct l as [|y l'].
  - change (print_elems print_json [x]) with (print_json x ++ "]")%string.
    rewrite sapp_assoc, sapp_cons, Hx by (simpl in Hf; first [lia|reflexivity]).
    reflexivity.
  - change (print_elems print_json (x :: y :: l'))
      with (print_json x ++ String ","%char (print_elems print_json (y :: l')))%string.
    rewrite sapp_assoc, sapp_cons, Hx by (simpl in Hf; first [lia|reflexivity]).
    rewrite skip_ws_nonws by reflexivity.
    cbv beta iota.
    rewrite IH by (simpl in Hf |- *; first [congruence|lia|exact Hr]).
    reflexivity.
Qed.

Lemma str1_app c (s : string) : (str1 c ++ s)%string = String c s.
Proof. reflexivity. Qed.

Lemma sone_app c (s : string) : (String c "" ++ s)%string = String c s.
Proof. reflexivity. Qed.

Lemma quote_app k (s : string) :
  (quote k ++ s)%string = String dq (escape_string k ++ String dq s).
Proof. unfold quote; rewrite sapp_cons, sapp_assoc, str1_app; reflexivity. Qed.

Lemma escape_lt k s : String.length k < String.length (escape_string k ++ String dq s).
Proof. rewrite slength_app; pose proof (escape_string_length k); simpl; lia. Qed.

Lemma parse_members_print o :
  Forall (fun kv => rt (snd kv)) o -> o <> [] -> forall f rest,
  list_sum (map (fun kv => S (json_size (snd kv))) o) <= f -> starts_ok rest = true ->
  parse_members f (print_members print_json o ++ rest) = Some (o, rest).
Proof.
  induction 1 as [|[k v] o Hv Ho IH]; intros Hne f rest Hf Hr; [congruence|].
  simpl in Hv.
  destruct f as [|f]; simpl in Hf; [lia|].
  destruct o as [|[k2 v2] o'].
  - change (print_members print_json [(k, v)])
      with (quote k ++ String ":"%char (print_json v ++ "}"))%string.
    rewrite sapp_assoc, quote_app, parse_members_quote, parse_chars_quote by apply escape_lt.
    rewrite sapp_cons, skip_ws_nonws by reflexivity; cbv beta iota.
    rewrite sapp_assoc, sone_app, Hv by (simpl in Hf; first [lia|reflexivity]).
    reflexivity.
  - change (print_members print_json ((k, v) :: (k2, v2) :: o'))
      with (quote k ++ String ":"%char (print_json v ++ String ","%char
              (print_members print_json ((k2, v2) :: o'))))%string.
    rewrite sapp_assoc, quote_app, parse_members_quote, parse_chars_quote by apply escape_lt.
    rewrite sapp_cons, skip_ws_nonws by reflexivity; cbv beta iota.
    rewrite sapp_assoc, sapp_cons, Hv by (simpl in Hf; first [lia|reflexivity]).
    rewrite skip_ws_nonws by reflexivity; cbv beta iota.
    rewrite IH by (simpl in Hf |- *; first [congruence|lia|exact Hr]).
    reflexivity.
Qed.

Lemma wf_arr l : wf_json (JArr l) -> Forall wf_json l.
Proof.
  induction l as [|x l IH]; intros H; [constructor|].
  destruct H as [Hx Hl]; constructor; [exact Hx|exact (IH Hl)].
Qed.

Lemma wf_obj o : wf_json (JObj o) -> NoDup (map fst o) /\ Forall (fun kv => wf_json (snd kv)) o.
Proof.
  intros [Hn Hw]; split; [exact Hn|].
  induction o as [|[k v] o IH]; [constructor|].
  destruct Hw as [Hv Ho]; constructor; [exact Hv|].
  apply IH; [inversion Hn; assumption|exact Ho].
Qed.

Lemma obj_set_fresh {V} k (v : V) acc :
  ~ In k (map fst acc) -> obj_set k v acc = acc ++ [(k, v)].
Proof.
  induction acc as [|[k' v'] acc IH]; intros H; [reflexivity|].
  simpl in *; destruct (String.eqb_spec k k'); [subst; tauto|].
  rewrite IH by tauto; reflexivity.
Qed.

Lemma fold_obj_set_nodup {V} (o acc : list (string * V)) :
  NoDup (map fst (acc ++ o)) ->
  fold_left (fun o kv => obj_set (fst kv) (snd kv) o) o acc = acc ++ o.
Proof.
  revert acc; induction o as [|[k v] o IH]; intros acc H; simpl.
  - rewrite app_nil_r; reflexivity.
  - rewrite obj_set_fresh.
    + rewrite IH, <- app_assoc by (rewrite <- app_assoc; exact H); reflexivity.
    + rewrite map_app in H; simpl in H; apply NoDup_remove_2 in H.
      rewrite <- map_app in H; intros Hin; apply H; rewrite map_app in *; apply in_or_app; left; exact Hin.
Qed.

Lemma parse_print j : wf_json j -> rt j.
Proof.
  induction j as [| b | n | s | l IHl | o IHo] using json_rect'; intros Hw f rest Hf Hr;
    destruct f as [|f]; simpl in Hf; try lia.
  - reflexivity.
  - destruct b; reflexivity.
  - destruct (number_to_string_shape n) as (c & r & Hs & Hc & _).
    simpl print_json; rewrite Hs, sapp_cons, parse_value_digit, <- sapp_cons, <- Hs by exact Hc.
    apply parse_number_print; exact Hr.
  - simpl print_json; rewrite quote_app, parse_value_quote, parse_chars_quote by apply escape_lt.
    reflexivity.
  - simpl print_json; rewrite sapp_cons, parse_value_bracket.
    destruct f as [|f]; [lia|].
    destruct l as [|x l'].
    + reflexivity.
    + destruct (print_json_start x) as (c & r & Hs & Hc).
      assert (E : exists r', (print_elems print_json (x :: l') ++ rest)%string = String c r').
      { destruct l'; simpl print_elems; rewrite Hs; eexists; reflexivity. }
      destruct E as [r' E]; rewrite E, parse_arr_value_start, <- E by exact Hc.
      rewrite parse_items_print; [reflexivity| |congruence|lia|exact Hr].
      apply wf_arr in Hw; clear -IHl Hw.
      induction IHl as [|y l'' Hy _ IH]; constructor; inversion Hw; auto.
  - simpl print_json; rewrite sapp_cons, parse_value_brace.
    destruct f as [|f]; [lia|].
    apply wf_obj in Hw as [Hn Hw].
    destruct o as [|[k v] o'].
    + reflexivity.
    + assert (E : (print_members print_json ((k, v) :: o') ++ rest)%string =
                  String dq (escape_string k ++ String dq
                    (String ":"%char (print_json v ++ match o' with [] => "}"
                       | _ => String ","%char (print_members print_json o') end) ++ rest))%string).
      { rewrite <- quote_app, <- sapp_assoc; destruct o'; reflexivity. }
      rewrite E, parse_obj_quote, <- E.
      rewrite parse_members_print; [|clear -IHo Hw; induction IHo as [|y o'' Hy _ IH]; constructor;
                                      inversion Hw; auto|congruence|lia|exact Hr].
      rewrite fold_obj_set_nodup by exact Hn; reflexivity.
Qed.

Lemma elems_size l :
  Forall (fun x => json_size x <= 2 * String.length (print_json x)) l ->
  list_sum (map (fun x => S (json_size x)) l) <= 2 * String.length (print_elems print_json l).
Proof.
  induction 1 as [|x l Hx Hl IH]; [simpl; lia|].
  destruct l as [|y l'].
  - change (print_elems print_json [x]) with (print_json x ++ "]")%string.
    rewrite slength_app; simpl; lia.
  - change (print_elems print_json (x :: y :: l'))
      with (print_json x ++ String ","%char (print_elems print_json (y :: l')))%string.
    rewrite slength_app; simpl in IH |- *; lia.
Qed.

Lemma members_size o :
  Forall (fun kv => json_size (snd kv) <= 2 * String.length (print_json (snd kv))) o ->
  list_sum (map (fun kv => S (json_size (snd kv))) o) <=
  2 * String.length (print_members print_json o).
Proof.
  induction 1 as [|[k v] o Hv Ho IH]; [simpl; lia|].
  simpl in Hv; destruct o as [|[k2 v2] o'].
  - change (print_members print_json [(k, v)])
      with (quote k ++ String ":"%char (print_json v ++ "}"))%string.
    repeat progress (simpl; rewrite ?slength_app); lia.
  - change (print_members print_json ((k, v) :: (k2, v2) :: o'))
      with (quote k ++ String ":"%char (print_json v ++ String ","%char
              (print_members print_json ((k2, v2) :: o'))))%string.
    simpl in IH; repeat progress (simpl; rewrite ?slength_app); lia.
Qed.

Lemma json_size_le j : json_size j <= 2 * String.length (print_json j).
Proof.
  induction j as [| b | n | s | l IHl | o IHo] using json_rect'; simpl.
  - lia.
  - destruct b; simpl; lia.
  - destruct (number_to_string_shape n) as (c & r & Hs & _); rewrite Hs; simpl; lia.
  - lia.
  - pose proof (elems_size l IHl); lia.
  - pose proof (members_size o IHo); lia.
Qed.

Lemma parse_json_print j : wf_json j -> parse_json (print_json j) = Some j.
Proof.
  intros Hw; unfold parse_json.
  pose proof (parse_print j Hw (2 * String.length (print_json j) + 1) "") as H.
  rewrite sapp_nil_r in H; rewrite H by (pose proof (json_size_le j); first [lia|reflexivity]).
  reflexivity.
Qed.

Lemma wf_arr_intro l : Forall wf_json l -> wf_json (JArr l).
Proof. induction 1; simpl; auto. Qed.

Lemma wf_obj_intro o :
  NoDup (map fst o) -> Forall (fun kv => wf_json (snd kv)) o -> wf_json (JObj o).
Proof.
  intros Hn Hw; split; [exact Hn|].
  clear Hn; induction Hw as [|[k v] o Hv Ho IH]; simpl; auto.
Qed.

Lemma reactions_json_wf r :
  NoDup (map fst r) -> wf_json (JObj (map (fun '(k, n) => (k, JNum n)) r)).
Proof.
  intros Hn; apply wf_obj_intro.
  - replace (map fst (map (fun '(k, n) => (k, JNum n)) r)) with (map fst r); [exact Hn|].
    induction r as [|[k n] r IH]; simpl; [reflexivity|]; f_equal; apply IH; inversion Hn; auto.
  - induction r as [|[k n] r IH]; simpl; constructor; simpl; auto.
    apply IH; inversion Hn; auto.
Qed.

Lemma message_json_wf m :
  match reactions m with Some r => NoDup (map fst r) | None => True end ->
  wf_json (message_to_json m).
Proof.
  intros Hr; destruct m as [ro c ts p rs le]; simpl in Hr.
  apply wf_obj_intro.
  - destruct p, rs, le; simpl; repeat constructor; simpl; intuition discriminate.
  - destruct p, rs, le; simpl;
      repeat (apply Forall_cons; [simpl; first [exact I | apply reactions_json_wf; exact Hr]|]);
      apply Forall_nil.
Qed.

Lemma session_json_wf s :
  Forall (fun m => match reactions m with Some r => NoDup (map fst r) | None => True end)
    (messages s) ->
  wf_json (session_to_json s).
Proof.
  intros H; apply wf_obj_intro.
  - simpl; repeat constructor; simpl; intuition discriminate.
  - repeat constructor; simpl; apply wf_arr_intro.
    induction H; simpl; constructor; auto using message_json_wf.
Qed.

Lemma traverse_map_inv {A B} (f : B -> option A) (g : A -> B) l :
  (forall x, f (g x) = Some x) -> traverse f (map g l) = Some l.
Proof. intros H; induction l as [|x l IH]; simpl; [reflexivity|]; rewrite H, IH; reflexivity. Qed.

Lemma reactions_roundtrip r : reactions_of (JObj (map (fun '(k, n) => (k, JNum n)) r)) = Some r.
Proof.
  induction r as [|[k n] r IH]; [reflexivity|].
  simpl in IH |- *; destruct (traverse _ _); [congruence|discriminate].
Qed.

Lemma message_roundtrip m : message_of_json (message_to_json m) = Some m.
Proof.
  destruct m as [ro c ts p rs le]; destruct rs as [r|];
    [pose proof (reactions_roundtrip r) as R; simpl in R|];
    destruct ro, p, le; simpl; rewrite ?R; reflexivity.
Qed.

Lemma session_roundtrip s : session_of_json (session_to_json s) = Some s.
Proof.
  destruct s as [i n ms]; simpl.
  rewrite traverse_map_inv by exact message_roundtrip; reflexivity.
Qed.

Lemma parse_sessions_stringify ss :
  reactions_wf ss -> parse_sessions (stringify_sessions ss) = Some ss.
Proof.
  intros H; unfold parse_sessions, stringify_sessions.
  rewrite parse_json_print.
  - apply traverse_map_inv, session_roundtrip.
  - apply wf_arr_intro; induction H; simpl; constructor; auto using session_json_wf.
Qed.

Lemma obj_set_keys {V} k (v : V) o x :
  In x (map fst (obj_set k v o)) -> x = k \/ In x (map fst o).
Proof.
  induction o as [|[k' v'] o IH]; simpl; [intros [<-|[]]; left; reflexivity|].
  destruct (String.eqb k k'); simpl; intros [<-|H]; [tauto|tauto|tauto|].
  destruct (IH H); tauto.
Qed.

Lemma obj_set_nodup {V} k (v : V) o : NoDup (map fst o) -> NoDup (map fst (obj_set k v o)).
Proof.
  induction o as [|[k' v'] o IH]; simpl; intros Hn.
  - repeat constructor; intros [].
  - inversion Hn as [|? ? Hk Ho]; subst.
    destruct (String.eqb_spec k k') as [->|Hne]; simpl; constructor; auto.
    intros Hin; apply obj_set_keys in Hin as [->|Hin]; tauto.
Qed.

Lemma msg_wf_react e m : msg_wf m -> msg_wf (react e m).
Proof.
  unfold msg_wf, react; simpl; intros H; apply obj_set_nodup.
  destruct (reactions m); [exact H|constructor].
Qed.

Lemma map_current_wf cur f ss :
  (forall l, Forall msg_wf l -> Forall msg_wf (f l)) ->
  reactions_wf ss -> reactions_wf (map_current cur f ss).
Proof.
  intros Hf H; unfold map_current; apply Forall_map.
  eapply Forall_impl; [|exact H]; intros s Hs; simpl.
  destruct (id_is (id s) cur); simpl; auto.
Qed.

Lemma Forall_update_at (P : Message -> Prop) i g l :
  (forall m, P m -> P (g m)) -> Forall P l -> Forall P (update_at i g l).
Proof.
  intros Hg H; apply Forall_forall; intros y Hy.
  apply In_update_at in Hy as (x & Hx & [->| ->]);
    [|apply Hg]; exact (proj1 (Forall_forall _ _) H x Hx).
Qed.

Lemma Forall_pin_sort (P : Message -> Prop) l : Forall P l -> Forall P (pin_sort l).
Proof.
  intros H; apply Forall_forall; intros y Hy.
  exact (proj1 (Forall_forall _ _) H y (In_pin_sort _ _ Hy)).
Qed.

Lemma step_reactions_wf l st st' :
  step l st st' -> reactions_wf (sessions st) -> reactions_wf (sessions st').
Proof.
  intros Hst H.
  destruct Hst as [st t|st now stamp st1 p Hst|st p o stamp|st sid|st sid|st i
                  |pd st i c now nowStr st1 Hst|st i e]; simpl.
  - exact H.
  - unfold handleSubmit_start in Hst.
    destruct (String.eqb (topic st) ""); [injection Hst as <- _; exact H|].
    injection Hst as <- _.
    destruct (negb (truthy_str (currentSessionId st))); simpl.
    + apply Forall_app; split; [exact H|repeat constructor].
    + apply map_current_wf; [|exact H].
      intros l0 Hl; apply Forall_app; split; [exact Hl|repeat constructor].
  - apply map_current_wf; [|exact H].
    intros l0 Hl; apply Forall_app; split; [exact Hl|repeat constructor].
  - unfold handleDeleteSession.
    destruct (id_is sid (currentSessionId st)); simpl;
      apply Forall_forall; intros s Hs; apply filter_In in Hs as [Hs _];
      exact (proj1 (Forall_forall _ _) H s Hs).
  - exact H.
  - unfold togglePinMessage.
    destruct (negb (truthy_str (currentSessionId st))); [exact H|simpl].
    apply map_current_wf; [|exact H].
    intros l0 Hl; apply Forall_pin_sort, Forall_update_at; [|exact Hl].
    intros m Hm; exact Hm.
  - unfold handleEditMessage in Hst.
    destruct (negb (truthy_str (currentSessionId st))); [injection Hst as <-; exact H|].
    destruct (getCurrentSession st) as [s|]; [|discriminate].
    destruct (nth_error (messages s) i) as [m|]; [|discriminate].
    destruct (match pd (timestamp m) with
              | Some t => Z.ltb 300000 (now - t) | None => false end); [discriminate|].
    injection Hst as <-; simpl.
    apply map_current_wf; [|exact H].
    intros l0 Hl; apply Forall_update_at; [|exact Hl].
    intros m0 Hm; exact Hm.
  - unfold addReaction.
    destruct (negb (truthy_str (currentSessionId st))); [exact H|simpl].
    apply map_current_wf; [|exact H].
    intros l0 Hl; apply Forall_update_at; [apply msg_wf_react|exact Hl].
Qed.

(** Every reachable state keeps the keys of each reaction map distinct. *)
Lemma reachable_reactions_wf st : reachable st -> reactions_wf (sessions st).
Proof.
  induction 1 as [|l st st' _ IH Hst|st _ IH].
  - constructor.
  - exact (step_reactions_wf l st st' Hst IH).
  - exact IH.
Qed.

(** C6: the second effect writes [JSON.stringify(sessions)] only when
    [sessions] is non-empty, and an empty collection leaves the stored value
    untouched; hydrating from a written snapshot gives back the same session
    list.  Reactions are a JS object, so their keys are distinct
    ([reactions_wf]). *)
Theorem save_load_roundtrip (ss : list Session) (stored : option string) :
  reactions_wf ss ->
  save_sessions ss stored = match ss with [] => stored | _ => Some (stringify_sessions ss) end /\
  load_sessions (save_sessions ss stored) =
  match ss with [] => load_sessions stored | _ => Hydrate ss end.
Proof.
  intros H; destruct ss as [|s ss]; [split; reflexivity|].
  split; [reflexivity|].
  unfold save_sessions, load_sessions.
  change (Nat.ltb 0 (length (s :: ss))) with true; cbv beta iota.
  assert (E : String.eqb (stringify_sessions (s :: ss)) "" = false) by reflexivity.
  rewrite E, parse_sessions_stringify by exact H; reflexivity.
Qed.

Lemma save_load_roundtrip_witness :
  reactions_wf reacted_sessions /\
  save_sessions reacted_sessions None = Some (stringify_sessions reacted_sessions) /\
  load_sessions (save_sessions reacted_sessions None) = Hydrate reacted_sessions.
Proof.
  assert (Hw : reactions_wf reacted_sessions)
    by (vm_compute; repeat constructor; simpl; intuition discriminate).
  split; [exact Hw|].
  exact (save_load_roundtrip reacted_sessions None Hw).
Defined.

(** ** Search, preferences, rendering and the chat route *)

Lemma includes_nil s : includes s "" = true.
Proof. destruct s; reflexivity. Qed.

Lemma prefix_spec q s : String.prefix q s = true <-> exists y, s = (q ++ y)%string.
Proof.
  revert s; induction q as [|a q IH]; intros s; simpl.
  - destruct s; split; eauto.
  - destruct s as [|b s]; simpl.
    + split; [discriminate|intros [y Hy]; discriminate].
    + destruct (ascii_dec a b) as [->|Hne].
      * rewrite IH; split; intros [y Hy]; exists y; congruence.
      * split; [discriminate|intros [y Hy]; congruence].
Qed.

Lemma includes_spec s q : includes s q = true <-> exists x y, s = (x ++ q ++ y)%string.
Proof.
  induction s as [|c s IH].
  - change (includes "" q) with (if String.prefix q "" then true else false).
    destruct (String.prefix q "") eqn:E.
    + split; [intros _|reflexivity]. apply prefix_spec in E as [y Hy].
      exists "", y; exact Hy.
    + split; [discriminate|intros (x & y & H)].
      destruct x; [|discriminate]; simpl in H.
      assert (Hp : String.prefix q "" = true) by (apply prefix_spec; exists y; exact H).
      congruence.
  - change (includes (String c s) q)
      with (if String.prefix q (String c s) then true else includes s q).
    destruct (String.prefix q (String c s)) eqn:E.
    + split; [intros _|reflexivity]. apply prefix_spec in E as [y Hy].
      exists "", y; exact Hy.
    + rewrite IH; split.
      * intros (x & y & H); exists (String c x), y; simpl; congruence.
      * intros (x & y & H); destruct x as [|a x].
        -- assert (Hp : String.prefix q (String c s) = true)
             by (apply prefix_spec; exists y; exact H).
           congruence.
        -- injection H as -> H; exists x, y; exact H.
Qed.

Lemma includes_trans a b c : includes a b = true -> includes b c = true -> includes a c = true.
Proof.
  rewrite !includes_spec; intros (x1 & y1 & ->) (x2 & y2 & ->).
  exists (x1 ++ x2)%string, (y2 ++ y1)%string.
  rewrite !sapp_assoc; reflexivity.
Qed.

Lemma session_matches_narrow q1 q2 s :
  includes (toLowerCase q2) (toLowerCase q1) = true ->
  session_matches q2 s = true -> session_matches q1 s = true.
Proof.
  intros Hq; unfold session_matches; rewrite !orb_true_iff, !existsb_exists.
  intros [H|(m & Hm & H)]; [left|right; exists m; split; [exact Hm|]];
    eapply includes_trans; eauto.
Qed.

Lemma filter_filter_impl {A} (p1 p2 : A -> bool) l :
  (forall x, p2 x = true -> p1 x = true) -> filter p2 (filter p1 l) = filter p2 l.
Proof.
  intros H; induction l as [|x l IH]; simpl; [reflexivity|].
  destruct (p1 x) eqn:E1; simpl; rewrite ?IH; [reflexivity|].
  destruct (p2 x) eqn:E2; [apply H in E2; congruence|reflexivity].
Qed.

(** An empty search query lists every session, in order. *)
Theorem filteredSessions_empty_query ss : filteredSessions ss "" = ss.
Proof.
  unfold filteredSessions; induction ss as [|s ss IH]; simpl; [reflexivity|].
  unfold session_matches at 1; simpl toLowerCase; rewrite includes_nil, IH; reflexivity.
Qed.

(** Extending a query (up to case) only narrows the list: filtering the
    results of [q1] by [q2] gives the results of [q2]. *)
Theorem filteredSessions_narrowing ss q1 q2 :
  includes (toLowerCase q2) (toLowerCase q1) = true ->
  filteredSessions (filteredSessions ss q1) q2 = filteredSessions ss q2.
Proof.
  intros Hq; unfold filteredSessions; apply filter_filter_impl.
  intros s; apply session_matches_narrow; exact Hq.
Qed.

(** The session a submission creates is listed by any query occurring
    (up to case) in its topic. *)
Theorem filteredSessions_finds_new_session st now stamp q :
  topic st <> "" -> truthy_str (currentSessionId st) = false ->
  includes (toLowerCase (topic st)) (toLowerCase q) = true ->
  In {| id := number_to_string now; name := session_name (topic st);
        messages := [userMessage (topic st) stamp] |}
     (filteredSessions (sessions (fst (handleSubmit_start st now stamp))) q).
Proof.
  intros Ht Hc Hq; unfold handleSubmit_start.
  destruct (String.eqb_spec (topic st) "") as [E|_]; [contradiction|].
  rewrite Hc; simpl; unfold filteredSessions; apply filter_In; split.
  - apply in_or_app; right; left; reflexivity.
  - unfold session_matches; simpl; rewrite Hq, orb_true_r; reflexivity.
Qed.

(** The theme and monochrome settings written by the second effect are
    read back unchanged by the first. *)
Theorem prefs_reload_roundtrip ss isDarkTheme isMonochrome ls :
  load_prefs (persist ss isDarkTheme isMonochrome ls) = (isDarkTheme, isMonochrome).
Proof. unfold load_prefs, persist, setItem; destruct isDarkTheme, isMonochrome; reflexivity. Qed.

(** Each "Load More" adds 10 messages up to the session length, and once
    all messages are visible the button is gone. *)
Theorem loadMoreMessages_iter st s prev k :
  getCurrentSession st = Some s -> 0 < length (messages s) -> prev <= length (messages s) ->
  Nat.iter k (loadMoreMessages st) prev = Nat.min (prev + 10 * k) (length (messages s)) /\
  (length (messages s) <= prev + 10 * k -> showLoadMore st (Nat.iter k (loadMoreMessages st) prev) = false).
Proof.
  intros Hs Hn Hp.
  assert (E : Nat.iter k (loadMoreMessages st) prev = Nat.min (prev + 10 * k) (length (messages s))).
  { induction k as [|k IH]; simpl Nat.iter; [lia|].
    rewrite IH; unfold loadMoreMessages; rewrite Hs.
    destruct (length (messages s)) as [|n]; [lia|]. lia. }
  split; [exact E|]; intros Hk; rewrite E; unfold showLoadMore; rewrite Hs.
  apply Nat.ltb_ge; lia.
Qed.

Lemma nth_error_firstn' {A} (l : list A) v i : i < v -> nth_error (firstn v l) i = nth_error l i.
Proof.
  revert v i; induction l as [|x l IH]; intros v i Hi.
  - destruct v; simpl; destruct i; reflexivity.
  - destruct v as [|v]; [lia|]; destruct i as [|i]; simpl; [reflexivity|apply IH; lia].
Qed.

(** In every reachable state the render's in-place sort leaves the
    current session's messages as they are, so render position [i] shows
    the message at index [i] of the state. *)
Theorem rendered_messages_in_state st v i :
  reachable st -> i < v ->
  nth_error (rendered_messages st v) i = msg_at st i /\
  (forall s, getCurrentSession st = Some s -> pin_sort (messages s) = messages s).
Proof.
  intros Hr Hi.
  assert (Hsort : forall s, getCurrentSession st = Some s -> pin_sort (messages s) = messages s).
  { intros s Hs; apply pin_sort_sorted.
    apply reachable_pin_sorted in Hr; unfold store_pin_sorted in Hr.
    rewrite Forall_forall in Hr; apply Hr.
    unfold getCurrentSession in Hs; apply find_some in Hs; apply Hs. }
  split; [|exact Hsort].
  unfold rendered_messages, msg_at; destruct (getCurrentSession st) as [s|] eqn:Hs.
  - rewrite Hsort by reflexivity; apply nth_error_firstn'; exact Hi.
  - destruct i; reflexivity.
Qed.

Lemma update_at_middle {A} (g : A -> A) l1 x l2 :
  update_at (length l1) g (l1 ++ x :: l2) = l1 ++ g x :: l2.
Proof.
  apply nth_error_ext; intros j; rewrite nth_error_update_at.
  destruct (Nat.eqb_spec j (length l1)) as [->|Hne].
  - rewrite !nth_error_app2, Nat.sub_diag by lia; reflexivity.
  - destruct (Nat.lt_ge_cases j (length l1)).
    + rewrite !nth_error_app1 by lia; reflexivity.
    + rewrite !nth_error_app2 by lia.
      destruct (j - length l1) eqn:E; [lia|reflexivity].
Qed.

Lemma pin_sortedb_after_unpinned l1 m l2 :
  pin_sortedb (l1 ++ m :: l2) = true -> pinned m = false ->
  forallb (fun y => negb (pinned y)) l2 = true.
Proof.
  induction l1 as [|x l1 IH]; simpl; intros H Hm.
  - rewrite Hm in H; apply andb_true_iff in H; apply H.
  - apply andb_true_iff in H as [_ H]; exact (IH H Hm).
Qed.

Lemma pin_sortedb_before_pinned l1 m l2 :
  pin_sortedb (l1 ++ m :: l2) = true -> pinned m = true -> forallb pinned l1 = true.
Proof.
  induction l1 as [|x l1 IH]; simpl; intros H Hm; [reflexivity|].
  apply andb_true_iff in H as [Hx H].
  destruct (pinned x) eqn:Ex; [simpl; exact (IH H Hm)|].
  rewrite forallb_app in Hx; simpl in Hx; rewrite Hm in Hx.
  rewrite !andb_false_r in Hx; discriminate.
Qed.

Lemma filter_all {A} (p : A -> bool) l : forallb p l = true -> filter p l = l.
Proof.
  induction l as [|x l IH]; simpl; [reflexivity|].
  intros H; apply andb_true_iff in H as [-> H]; rewrite IH by exact H; reflexivity.
Qed.

Lemma filter_none {A} (p : A -> bool) l : forallb (fun y => negb (p y)) l = true -> filter p l = [].
Proof.
  induction l as [|x l IH]; simpl; [reflexivity|].
  intros H; apply andb_true_iff in H as [Hx H]; destruct (p x); [discriminate|exact (IH H)].
Qed.

Lemma pinned_flip m : pinned (flip_pin m) = negb (pinned m).
Proof. unfold flip_pin, pinned; simpl; destruct (isPinned m) as [[]|]; reflexivity. Qed.

Lemma forallb_negb_pinned_filter l :
  forallb pinned l = true -> filter (fun y => negb (pinned y)) l = [].
Proof.
  intros H; apply filter_none; rewrite forallb_forall in H |- *.
  intros x Hx; rewrite H by exact Hx; reflexivity.
Qed.

(** A message that gets pinned lands right after the pinned messages; one
    that gets unpinned lands first among the unpinned ones. *)
Theorem togglePinMessage_lands st s i m :
  reachable st -> truthy_str (currentSessionId st) = true ->
  getCurrentSession st = Some s -> nth_error (messages s) i = Some m ->
  let p := length (filter pinned (messages s)) in
  msg_at (togglePinMessage st i) (if pinned m then p - 1 else p) = Some (flip_pin m).
Proof.
  intros Hr Hc Hs Hm p.
  assert (Hsorted : pin_sortedb (messages s) = true).
  { apply reachable_pin_sorted in Hr; unfold store_pin_sorted in Hr.
    rewrite Forall_forall in Hr; apply Hr.
    unfold getCurrentSession in Hs; apply find_some in Hs; apply Hs. }
  destruct (nth_error_split _ _ Hm) as (l1 & l2 & Hsplit & Hlen).
  unfold togglePinMessage, msg_at, getCurrentSession; rewrite Hc; simpl.
  rewrite find_map_current; unfold getCurrentSession in Hs; rewrite Hs; simpl.
  subst p; rewrite Hsplit in Hsorted |- *; rewrite <- Hlen, update_at_middle, pin_sort_partition.
  rewrite !filter_app; simpl; rewrite pinned_flip.
  destruct (pinned m) eqn:Ep; simpl.
  - pose proof (pin_sortedb_before_pinned _ _ _ Hsorted Ep) as H1.
    rewrite (filter_all _ l1 H1), (forallb_negb_pinned_filter l1 H1); simpl.
    rewrite nth_error_app2 by (rewrite !length_app; simpl; lia).
    rewrite !length_app; simpl.
    replace (length l1 + S (length (filter pinned l2)) - 1 - (length l1 + length (filter pinned l2)))
      with 0 by lia; reflexivity.
  - pose proof (pin_sortedb_after_unpinned _ _ _ Hsorted Ep) as H2.
    rewrite (filter_none _ l2 H2), ?app_nil_r.
    rewrite nth_error_app1 by (rewrite !length_app; simpl; lia).
    rewrite nth_error_app2, Nat.sub_diag by lia; reflexivity.
Qed.

Lemma parse_json_error_obj msg :
  parse_json (print_json (JObj [("error", JStr msg)])) = Some (JObj [("error", JStr msg)]).
Proof.
  apply parse_json_print, wf_obj_intro; [repeat constructor; intros []|repeat constructor].
Qed.

Lemma parse_chat_request t : parse_json (chat_request t) = Some (JObj [("topic", JStr t)]).
Proof.
  apply parse_json_print, wf_obj_intro; [repeat constructor; intros []|repeat constructor].
Qed.

Lemma POST_chat_request t up :
  POST (chat_request t) up =
  match up (prompt t) with
  | UpErr message st =>
      Responded (error_response message (match st with Some (S k) => S k | _ => 500 end))
  | UpOk data =>
      match read_prop (Some data) "openai" with
      | inl e => Responded (error_response e 500)
      | inr openai =>
          match read_prop openai "generated_text" with
          | inl e => Responded (error_response e 500)
          | inr g => Responded (mkResponse 200 (print_json (JStr (template_value g ++ sources t))))
          end
      end
  end.
Proof. unfold POST; rewrite parse_chat_request; reflexivity. Qed.

(** With a [generated_text] string from upstream the route answers 200 and
    its body parses back to that text followed by the two source links. *)
Theorem POST_success t up o o' g :
  up (prompt t) = UpOk (JObj o) -> prop "openai" o = Some (JObj o') ->
  prop "generated_text" o' = Some (JStr g) ->
  exists r, POST (chat_request t) up = Responded r /\ status r = 200 /\
            parse_json (body r) = Some (JStr (g ++ sources t)).
Proof.
  intros Hup Ho Hg; rewrite POST_chat_request, Hup; simpl read_prop; rewrite Ho; simpl read_prop.
  rewrite Hg; eexists; split; [reflexivity|split; [reflexivity|]].
  apply parse_json_print; exact I.
Qed.

(** An upstream error is answered with its status (500 when missing or 0)
    and a body parsing to [{ error: message }]. *)
Theorem POST_upstream_error t up message st :
  up (prompt t) = UpErr message st ->
  exists r, POST (chat_request t) up = Responded r /\
            status r = match st with Some k => if Nat.eqb k 0 then 500 else k | None => 500 end /\
            parse_json (body r) = Some (JObj [("error", JStr message)]).
Proof.
  intros Hup; rewrite POST_chat_request, Hup.
  eexists; split; [reflexivity|split; [destruct st as [[|k]|]; reflexivity|]].
  apply parse_json_error_obj.
Qed.

(** An [openai] object without [generated_text] is answered 200 with the
    text "undefined" before the source links. *)
Theorem POST_missing_generated_text t up o o' :
  up (prompt t) = UpOk (JObj o) -> prop "openai" o = Some (JObj o') ->
  prop "generated_text" o' = None ->
  exists r, POST (chat_request t) up = Responded r /\ status r = 200 /\
            parse_json (body r) = Some (JStr ("undefined" ++ sources t)).
Proof.
  intros Hup Ho Hg; rewrite POST_chat_request, Hup; simpl read_prop; rewrite Ho; simpl read_prop.
  rewrite Hg; eexists; split; [reflexivity|split; [reflexivity|]].
  apply parse_json_print; exact I.
Qed.

(** An upstream answer without [openai] is answered 500 with the
    [TypeError] message. *)
Theorem POST_missing_openai t up o :
  up (prompt t) = UpOk (JObj o) -> prop "openai" o = None ->
  exists r, POST (chat_request t) up = Responded r /\ status r = 500 /\
            parse_json (body r) =
              Some (JObj [("error", JStr "Cannot read properties of undefined (reading 'generated_text')")]).
Proof.
  intros Hup Ho; rewrite POST_chat_request, Hup; simpl read_prop; rewrite Ho.
  eexists; split; [reflexivity|split; [reflexivity|]].
  apply parse_json_error_obj.
Qed.

(** With a session selected, a submission and its settlement leave that
    session ending in the user's message followed by the reply or the
    apology. *)
Theorem submit_reply_existing_session st s now stamp st1 p o stamp2 :
  truthy_str (currentSessionId st) = true -> getCurrentSession st = Some s ->
  handleSubmit_start st now stamp = (st1, Some p) ->
  getCurrentSession (handleSubmit_settle p o stamp2 st1) =
  Some {| id := id s; name := name s;
          messages := messages s ++
            [userMessage (topic st) stamp;
             {| role := assistant;
                content := match o with Resolved d => d | Failed => apology end;
                timestamp := stamp2; isPinned := Some false; reactions := Some [];
                lastEdited := None |}] |}.
Proof.
  intros Hc Hs Hst.
  assert (Hcur : currentSessionId (handleSubmit_settle p o stamp2 st1) = currentSessionId st).
  { unfold handleSubmit_start in Hst; destruct (String.eqb (topic st) ""); [discriminate|].
    rewrite Hc in Hst; injection Hst as <- _; reflexivity. }
  unfold getCurrentSession in *; rewrite Hcur.
  rewrite (handleSubmit_existing_session st now stamp st1 p o stamp2 Hc Hst).
  rewrite find_map_current, Hs; reflexivity.
Qed.

Lemma pinned_store_reachable : reachable pinned_store.
Proof.
  eapply reach_step; [eapply reach_step; [exact hi_store_reachable|apply step_settle]|].
  apply step_pin.
Defined.

Lemma filteredSessions_narrowing_witness :
  includes (toLowerCase "Reply") (toLowerCase "RE") = true /\
  filteredSessions (filteredSessions (sessions reply_store) "RE") "Reply" =
  filteredSessions (sessions reply_store) "Reply".
Proof.
  split; [reflexivity|].
  apply filteredSessions_narrowing; reflexivity.
Defined.

Lemma filteredSessions_finds_new_session_witness :
  In {| id := number_to_string 7; name := session_name "Mars Rover";
        messages := [userMessage "Mars Rover" "t"] |}
     (filteredSessions (sessions (fst (handleSubmit_start (set_topic initStore "Mars Rover") 7 "t")))
        "ROVER").
Proof. apply (filteredSessions_finds_new_session (set_topic initStore "Mars Rover")); [discriminate|reflexivity|reflexivity]. Defined.

Lemma loadMoreMessages_iter_witness :
  Nat.iter 2 (loadMoreMessages long_store) 0 = 20 /\
  showLoadMore long_store (Nat.iter 3 (loadMoreMessages long_store) 0) = false.
Proof.
  split.
  - apply (loadMoreMessages_iter long_store long_session 0 2); simpl; first [reflexivity | lia].
  - apply (loadMoreMessages_iter long_store long_session 0 3); simpl; first [reflexivity | lia].
Defined.

Lemma rendered_messages_in_state_witness :
  nth_error (rendered_messages pinned_store 10) 1 = msg_at pinned_store 1.
Proof. apply (rendered_messages_in_state pinned_store 10 1); [exact pinned_store_reachable|lia]. Defined.

Lemma togglePinMessage_lands_witness :
  msg_at (togglePinMessage pinned_store 1) 1 = Some (flip_pin (userMessage "hi" "t")).
Proof.
  apply (togglePinMessage_lands pinned_store pinned_session 1 (userMessage "hi" "t"));
    [exact pinned_store_reachable|reflexivity|reflexivity|reflexivity].
Defined.

Lemma POST_success_witness :
  exists r, POST (chat_request "mars") mars_upstream = Responded r /\ status r = 200 /\
            parse_json (body r) = Some (JStr ("Mars is red." ++ sources "mars")).
Proof.
  apply (POST_success "mars" mars_upstream [("openai", JObj [("generated_text", JStr "Mars is red.")])]
           [("generated_text", JStr "Mars is red.")]); reflexivity.
Defined.

Lemma POST_upstream_error_witness :
  exists r, POST (chat_request "mars") (fun _ => UpErr "Request failed with status code 401" (Some 401)) =
            Responded r /\ status r = 401 /\
            parse_json (body r) = Some (JObj [("error", JStr "Request failed with status code 401")]).
Proof.
  apply (POST_upstream_error "mars" (fun _ => UpErr "Request failed with status code 401" (Some 401))
           "Request failed with status code 401" (Some 401)); reflexivity.
Defined.

Lemma POST_missing_generated_text_witness :
  exists r, POST (chat_request "mars") (fun _ => UpOk (JObj [("openai", JObj [])])) = Responded r /\
            status r = 200 /\ parse_json (body r) = Some (JStr ("undefined" ++ sources "mars")).
Proof.
  apply (POST_missing_generated_text "mars" (fun _ => UpOk (JObj [("openai", JObj [])]))
           [("openai", JObj [])] []); reflexivity.
Defined.

Lemma POST_missing_openai_witness :
  exists r, POST (chat_request "mars") (fun _ => UpOk (JObj [("error", JStr "quota")])) = Responded r /\
            status r = 500 /\
            parse_json (body r) =
              Some (JObj [("error", JStr "Cannot read properties of undefined (reading 'generated_text')")]).
Proof.
  apply (POST_missing_openai "mars" (fun _ => UpOk (JObj [("error", JStr "quota")]))
           [("error", JStr "quota")]); reflexivity.
Defined.

Lemma submit_reply_existing_session_witness :
  getCurrentSession
    (handleSubmit_settle {| p_topic := "more"; p_session := Some (number_to_string 1) |} Failed "t3"
       (fst (handleSubmit_start (set_topic hi_store "more") 2 "t2"))) =
  Some {| id := id hi_session; name := name hi_session;
          messages := messages hi_session ++
            [userMessage "more" "t2";
             {| role := assistant; content := apology; timestamp := "t3"; isPinned := Some false;
                reactions := Some []; lastEdited := None |}] |}.
Proof.
  apply (submit_reply_existing_session (set_topic hi_store "more") hi_session 2 "t2"
           (fst (handleSubmit_start (set_topic hi_store "more") 2 "t2"))
           {| p_topic := "more"; p_session := Some (number_to_string 1) |} Failed "t3");
    reflexivity.
Defined.
